(** * Lidar sensor model, ray casting and importance weights

    A shallow embedding of the sensor-fusion notebook: the class
    [LidarSensor] and the functions [sense], [sensor_fusion], [shoot_rays],
    [importance] and [get_distance]; then of the measurement function [h]
    and [jacobian_of_h] of the non-linear least squares notebook, of
    [rotation_matrix] and of [make_H].

    Conventions of the embedding.
    - A Python float is read as a real number of the Standard Library
      ([R]): arithmetic is exact, so rounding, overflow, underflow and NaN
      are outside the model.  Python's [==] and [<=] on numbers become the
      decidable comparisons of [R].
    - A Python exception is a value [Raise e] of the type [result].
    - The process-global generator [np.random] is an explicit tape of
      draws, consumed from the front, one entry per primitive call. *)

From Stdlib Require Import Reals ZArith List Bool Lra Lia.
Import ListNotations.
Open Scope R_scope.

(** ** Python values and exceptions *)

Inductive exn := ZeroDivisionError | ValueError | TypeError | IndexError.

Inductive result (A : Type) : Type :=
| Ok (a : A)
| Raise (e : exn).
Arguments Ok {A} a.
Arguments Raise {A} e.

Definition bind {A B} (m : result A) (k : A -> result B) : result B :=
  match m with
  | Ok a => k a
  | Raise e => Raise e
  end.

Declare Scope py_scope.
Delimit Scope py_scope with py.
Notation "x <- m ;; k" := (bind m (fun x => k))
  (at level 61, m at next level, right associativity) : py_scope.
Open Scope py_scope.

(** A number as Python holds it: the tag decides the dtype that
    [np.array] picks for a list of numbers. *)
Inductive pynum :=
| PyInt (z : Z)
| PyFloat (r : R).

Definition value (n : pynum) : R :=
  match n with
  | PyInt z => IZR z
  | PyFloat r => r
  end.

Definition is_int (n : pynum) : bool :=
  match n with
  | PyInt _ => true
  | PyFloat _ => false
  end.

(** [int(x)]: truncation towards zero. *)
Definition py_int (x : R) : Z :=
  if Rle_dec 0 x then Zfloor x else Zceil x.

(** [a / b] on Python numbers. *)
Definition py_div (a b : R) : result R :=
  if Req_dec_T b 0 then Raise ZeroDivisionError else Ok (a / b).

(** [a % b] on floats: the remainder takes the sign of the divisor. *)
Definition py_mod (a b : R) : R :=
  a - IZR (Zfloor (a / b)) * b.

(** [np.radians]. *)
Definition radians (deg : R) : R := deg * PI / 180.

(** [np.linalg.norm] of the vector [(dx, dy)]. *)
Definition norm2 (dx dy : R) : R := sqrt (dx * dx + dy * dy).

(** [scipy.stats.norm.pdf(x, loc, scale)]: the density of the normal law
    with mean [loc] and standard deviation [scale]. *)
Definition norm_pdf (x loc scale : R) : R :=
  exp (- (((x - loc) / scale) * ((x - loc) / scale)) / 2) / sqrt (2 * PI) / scale.

(** ** The random generator *)

Inductive draw :=
| Uniform (p : R)      (* the value of one [np.random.rand()] *)
| Gauss (z : R)        (* one standard normal variate *)
| Index (i : Z).       (* the value of one [np.random.randint] *)

Definition tape := list draw.

(** A computation that reads the tape: [None] when the next entry of the
    tape is not a value the primitive can produce. *)
Definition Rand (A : Type) : Type := tape -> option (result A * tape).

Definition ret {A} (a : A) : Rand A := fun t => Some (Ok a, t).

Definition rbind {A B} (m : Rand A) (k : A -> Rand B) : Rand B :=
  fun t =>
    match m t with
    | Some (Ok a, t') => k a t'
    | Some (Raise e, t') => Some (Raise e, t')
    | None => None
    end.

Declare Scope rand_scope.
Delimit Scope rand_scope with rand.
Notation "x <~ m ;; k" := (rbind m (fun x => k))
  (at level 61, m at next level, right associativity) : rand_scope.
Open Scope rand_scope.

(** [np.random.rand()]: a float in [0, 1). *)
Definition rand : Rand R := fun t =>
  match t with
  | Uniform p :: t' =>
      if Rle_dec 0 p then if Rlt_dec p 1 then Some (Ok p, t') else None else None
  | _ => None
  end.

(** [np.random.normal(loc, scale)]. *)
Definition normal (loc scale : R) : Rand R := fun t =>
  match t with
  | Gauss z :: t' => Some (Ok (loc + scale * z), t')
  | _ => None
  end.

(** The range of numpy's default integer dtype, [np.iinfo(int)], where it
    has 64 bits; it has 32 bits on Windows with the numpy of the notebook. *)
Definition int_min : Z := (- 2 ^ 63)%Z.
Definition int_max : Z := (2 ^ 63 - 1)%Z.

(** [np.random.randint(low, high)]: an integer of [low, high).  The bounds
    go through [int()], [high] loses 1 to close the interval, and then, in
    this order, a [low] below the dtype ("low is out of bounds"), a [high]
    above it ("high is out of bounds") and an empty interval
    ("low >= high") are each a ValueError. *)
Definition randint (low high : R) : Rand Z := fun t =>
  let lo := py_int low in
  let hi := (py_int high - 1)%Z in
  if (lo <? int_min)%Z then Some (Raise ValueError, t)
  else if (int_max <? hi)%Z then Some (Raise ValueError, t)
  else if (hi <? lo)%Z then Some (Raise ValueError, t)
  else match t with
       | Index i :: t' =>
           if ((lo <=? i) && (i <=? hi))%Z then Some (Ok i, t') else None
       | _ => None
       end.

(** ** class LidarSensor *)

Module LidarSensor.

Record t := { _max_range : R }.


Definition max_range (self : t) : R := _max_range self.

Definition _random_measure (self : t) : Rand R :=
  i <~ randint 0 (_max_range self + 1) ;;
  ret (IZR i).

Definition _failure_measure (self : t) : R := _max_range self.

Definition _hit_measure (self : t) (expected_dist : R) : Rand R :=
  normal expected_dist 1.

Definition measure (self : t) (expected_dist : R) : Rand R :=
  p <~ rand ;;
  if Rle_dec p 0.95 then _hit_measure self expected_dist
  else if Rle_dec p 0.98 then _random_measure self
  else ret (_failure_measure self).

Definition lookup_prob (self : t) (expected_dist measured_dist : R) : result R :=
  let norm_prob := 0.95 * norm_pdf measured_dist expected_dist 1 in
  q <- py_div 1 (_max_range self) ;;
  let random_prob := 0.03 * q in
  let failure_prob := 0 in
  let failure_prob :=
    if Req_dec_T measured_dist (_max_range self) then 0.02 else failure_prob in
  Ok (norm_prob + random_prob + failure_prob).

End LidarSensor.

(** ** The occupancy grid *)

(** A two-dimensional numpy array: its shape and its entries, addressed
    [row, column]. *)
Record Grid := { shape0 : Z; shape1 : Z; cell : Z -> Z -> Z }.

(** One axis of [a[i, j]]: a negative index counts from the end, and an
    index outside [-n, n) is an IndexError. *)
Definition axis_index (n i : Z) : result Z :=
  if ((0 <=? i) && (i <? n))%Z then Ok i
  else if ((- n <=? i) && (i <? 0))%Z then Ok (i + n)%Z
  else Raise IndexError.

Definition getitem (a : Grid) (i j : Z) : result Z :=
  i' <- axis_index (shape0 a) i ;;
  j' <- axis_index (shape1 a) j ;;
  Ok (cell a i' j').

(** Modelled from the spec: [inbounds] is imported from the module [utils],
    which is not among the sources.  The spec speaks of a cell that "lies
    outside the grid's bounds"; the cell [(x, y)] is in bounds when
    [grid_map[y, x]], the entry the caller reads next, exists at a
    non-negative index. *)
Definition inbounds (grid_map : Grid) (x y : Z) : bool :=
  ((0 <=? x) && (x <? shape1 grid_map) && (0 <=? y) && (y <? shape0 grid_map))%Z.

(** Modelled from the spec: [bresenham] comes from a package that is not
    among the sources.  The spec asks for the cells of "a straight line from
    the pose to that endpoint", by "Bresenham's line algorithm", "in order
    from start to end".  The functions of the next section take the
    rasterizer as a parameter; this one serves where a concrete line is
    needed. *)
Module Bresenham.

Fixpoint steps (n : nat) (x y D : Z) (x0 y0 dx dy xx xy yx yy : Z)
  : list (Z * Z) :=
  match n with
  | O => []
  | S n' =>
      let p := (x0 + x * xx + y * yx, y0 + x * xy + y * yy)%Z in
      let y' := if (0 <=? D)%Z then (y + 1)%Z else y in
      let D' := if (0 <=? D)%Z then (D - 2 * dx)%Z else D in
      p :: steps n' (x + 1)%Z y' (D' + 2 * dy)%Z x0 y0 dx dy xx xy yx yy
  end.

Definition bresenham (x0 y0 x1 y1 : Z) : list (Z * Z) :=
  let dx := (x1 - x0)%Z in
  let dy := (y1 - y0)%Z in
  let xsign := if (0 <? dx)%Z then 1%Z else (-1)%Z in
  let ysign := if (0 <? dy)%Z then 1%Z else (-1)%Z in
  let dx := Z.abs dx in
  let dy := Z.abs dy in
  if (dy <? dx)%Z
  then steps (Z.to_nat (dx + 1)) 0 0 (2 * dy - dx) x0 y0 dx dy xsign 0 0 ysign
  else steps (Z.to_nat (dy + 1)) 0 0 (2 * dx - dy) x0 y0 dy dx 0 ysign xsign 0.

End Bresenham.

(** ** Ray casting and importance weights *)

Fixpoint mapM {A B} (f : A -> result B) (l : list A) : result (list B) :=
  match l with
  | [] => Ok []
  | a :: l' =>
      b <- f a ;;
      bs <- mapM f l' ;;
      Ok (b :: bs)
  end.

(** A numpy array of numbers: [np.array] of a non-empty list of Python ints
    has an integer dtype, any other list of numbers gives float64. *)
Inductive dtype := int64 | float64.

Record ndarray := { dt : dtype; items : list R }.

Definition np_array (l : list pynum) : ndarray :=
  {| dt := match l with
           | [] => float64
           | _ :: _ => if forallb is_int l then int64 else float64
           end;
     items := map value l |}.

Definition np_sum (a : ndarray) : R := fold_left Rplus (items a) 0.

(** [a /= d]: true division in place.  Its float64 output cannot be stored
    in an integer array, which is a TypeError whatever [d] is.  On a float
    array numpy divides by a zero [d] without an exception (inf or nan);
    the model then holds the unspecified real [w / 0]. *)
Definition itruediv (a : ndarray) (d : R) : result ndarray :=
  match dt a with
  | int64 => Raise TypeError
  | float64 => Ok {| dt := float64; items := map (fun w => w / d) (items a) |}
  end.

Definition State : Type := R * R * R.

Section RayCaster.

Variable bresenham : Z -> Z -> Z -> Z -> list (Z * Z).

(** The [for c in cells] loop of [get_distance]; [dist] and [loc] are the
    loop's variables. *)
Fixpoint walk (grid_map : Grid) (x y : R) (cells : list (Z * Z))
  (dist : R) (loc : R * R) : result (R * (R * R)) :=
  match cells with
  | [] => Ok (dist, loc)
  | c :: cells' =>
      if negb (inbounds grid_map (fst c) (snd c)) then Ok (dist, loc)
      else
        v <- getitem grid_map (snd c) (fst c) ;;
        if (v =? 1)%Z
        then
          let dist := norm2 (x - IZR (fst c)) (y - IZR (snd c)) in
          let loc := (IZR (fst c), IZR (snd c)) in
          Ok (dist, loc)
        else walk grid_map x y cells' dist loc
  end.

Definition get_distance (grid_map : Grid) (sensor : LidarSensor.t)
  (x y angle : R) : result (R * (R * R)) :=
  let x2 := x + LidarSensor.max_range sensor * cos angle in
  let y2 := y + LidarSensor.max_range sensor * sin angle in
  let cells := bresenham (py_int x) (py_int y) (py_int x2) (py_int y2) in
  let dist := LidarSensor.max_range sensor in
  let loc := (x2, y2) in
  walk grid_map x y cells dist loc.

Definition shoot_rays (grid_map : Grid) (sensor : LidarSensor.t)
  (state : State) (k : nat) : result (list R) :=
  let '(x, y, theta) := state in
  mapM (fun bearing : nat =>
          step <- py_div 360 (INR k) ;;
          let bearing := INR bearing * step in
          let angle := py_mod (theta + radians bearing) (2 * PI) in
          r <- get_distance grid_map sensor x y angle ;;
          Ok (fst r))
       (seq 0 k).

(** The loop of [importance] over [zip(expected_distances,
    measured_distances)]; [weight] starts as the int [1] and is a float
    after the first product. *)
Fixpoint importance_loop (sensor : LidarSensor.t) (pairs : list (R * R))
  (weight : pynum) : result pynum :=
  match pairs with
  | [] => Ok weight
  | (ed, md) :: pairs' =>
      p <- LidarSensor.lookup_prob sensor ed md ;;
      importance_loop sensor pairs' (PyFloat (value weight * p))
  end.

Definition importance (grid_map : Grid) (sensor : LidarSensor.t)
  (state : State) (measured_distances : list R) : result pynum :=
  expected_distances <-
    shoot_rays grid_map sensor state (length measured_distances) ;;
  let weight := PyInt 1 in
  importance_loop sensor (combine expected_distances measured_distances) weight.

Definition sensor_fusion (grid_map : Grid) (sensor : LidarSensor.t)
  (samples : list State) (measured_distances : list R) : result (list R) :=
  weights <- mapM (fun s => importance grid_map sensor s measured_distances)
                  samples ;;
  let weights := np_array weights in
  weights <- itruediv weights (np_sum weights) ;;
  Ok (items weights).

(** [sense]: one reading per expected distance, in order. *)
Fixpoint measure_all (sensor : LidarSensor.t) (dists : list R) : Rand (list R) :=
  match dists with
  | [] => ret []
  | d :: dists' =>
      m <~ LidarSensor.measure sensor d ;;
      ms <~ measure_all sensor dists' ;;
      ret (m :: ms)
  end.

Definition sense (grid : Grid) (sensor : LidarSensor.t)
  (ground_truth_state : State) (rays : nat) : Rand (list R) :=
  match shoot_rays grid sensor ground_truth_state rays with
  | Ok dists => measure_all sensor dists
  | Raise e => fun t => Some (Raise e, t)
  end.

End RayCaster.

(** ** Vocabulary of the statements *)

(** The cells the loop of [get_distance] inspects: those before the first
    cell out of bounds. *)
Fixpoint traversed (grid_map : Grid) (cells : list (Z * Z)) : list (Z * Z) :=
  match cells with
  | [] => []
  | c :: cells' =>
      if inbounds grid_map (fst c) (snd c)
      then c :: traversed grid_map cells'
      else []
  end.

Definition occupied (grid_map : Grid) (c : Z * Z) : Prop :=
  cell grid_map (snd c) (fst c) = 1%Z.

(** A reading the computation [m] can produce: some tape makes it return
    [r]. *)
Definition can_return {A} (m : Rand A) (r : A) : Prop :=
  exists t t', m t = Some (Ok r, t').

Definition product (l : list R) : R := fold_right Rmult 1 l.

Definition total (l : list R) : R := fold_right Rplus 0 l.

(** A grid of [rows] by [cols] free cells, and one with a single obstacle. *)
Definition free_grid (rows cols : Z) : Grid :=
  {| shape0 := rows; shape1 := cols; cell := fun _ _ => 0%Z |}.

Definition one_obstacle (rows cols : Z) (x y : Z) : Grid :=
  {| shape0 := rows; shape1 := cols;
     cell := fun i j => if ((i =? y) && (j =? x))%Z then 1%Z else 0%Z |}.

Definition sensor_of (max_range : R) : LidarSensor.t :=
  {| LidarSensor._max_range := max_range |}.

(** The angle of ray [i] out of [k] in [shoot_rays]. *)
Definition ray_angle (theta : R) (k i : nat) : R :=
  py_mod (theta + radians (INR i * (360 / INR k))) (2 * PI).

(** A rasterizer that yields the start cell first. *)
Definition starts_at_start (bresenham : Z -> Z -> Z -> Z -> list (Z * Z)) : Prop :=
  forall x0 y0 x1 y1, exists rest, bresenham x0 y0 x1 y1 = (x0, y0) :: rest.

(** The largest value of [lookup_prob] for a sensor of range [max_range]. *)
Definition lookup_prob_max (max_range : R) : R :=
  0.95 / sqrt (2 * PI) + 0.03 / max_range + 0.02.

(** ** Non-linear least squares: the measurement function and its Jacobian *)

(** [np.arctan2(y, x)] on finite floats, the signs of the zeros aside: the
    angle of the point [(x, y)], in (-PI, PI], and 0 at the origin.  A real
    has one zero: at [y = -0.0] with [x < 0] numpy returns [-PI], and at
    [y = +-0.0] with [x = -0.0] it returns [+-PI]; properties of the bearing
    are therefore stated over the closed interval [-PI, PI]. *)
Definition arctan2 (y x : R) : R :=
  if Rlt_dec 0 x then atan (y / x)
  else if Rlt_dec x 0
       then if Rle_dec 0 y then atan (y / x) + PI else atan (y / x) - PI
       else if Rlt_dec 0 y then PI / 2
            else if Rlt_dec y 0 then - (PI / 2)
                 else 0.

Module NonLinearLeastSquares.

(** A state [x] of two components, [x[0]] and [x[1]]. *)
Definition Vec2 : Type := R * R.

Definition f_range (x : Vec2) : R := norm2 (fst x) (snd x).

Definition f_bearing (x : Vec2) : R := arctan2 (snd x) (fst x).

Definition h (x : Vec2) : Vec2 := (f_range x, f_bearing x).

(** The two rows of the matrix.  A division by zero, which numpy turns
    into inf or nan without an exception, is the unspecified real [a / 0]
    of the model. *)
Definition jacobian_of_h (x : Vec2) : Vec2 * Vec2 :=
  ((fst x / norm2 (fst x) (snd x), snd x / norm2 (fst x) (snd x)),
   (- snd x / (fst x ^ 2 + snd x ^ 2), fst x / (fst x ^ 2 + snd x ^ 2))).

End NonLinearLeastSquares.

(** ** Rotation matrices *)

Module Rotation.

(** A 2 by 2 numpy array, as its two rows. *)
Definition Mat2 : Type := (R * R) * (R * R).

(** [a @ b] on 2 by 2 arrays. *)
Definition matmul (a b : Mat2) : Mat2 :=
  let '((a00, a01), (a10, a11)) := a in
  let '((b00, b01), (b10, b11)) := b in
  ((a00 * b00 + a01 * b10, a00 * b01 + a01 * b11),
   (a10 * b00 + a11 * b10, a10 * b01 + a11 * b11)).

(** [a @ v] for a vector [v] of two components. *)
Definition matvec (a : Mat2) (v : R * R) : R * R :=
  let '((a00, a01), (a10, a11)) := a in
  (a00 * fst v + a01 * snd v, a10 * fst v + a11 * snd v).

(** [a.T]. *)
Definition transpose (a : Mat2) : Mat2 :=
  let '((a00, a01), (a10, a11)) := a in ((a00, a10), (a01, a11)).

(** [np.eye(2)]. *)
Definition eye2 : Mat2 := ((1, 0), (0, 1)).

Definition det (a : Mat2) : R :=
  let '((a00, a01), (a10, a11)) := a in a00 * a11 - a01 * a10.

Definition rotation_matrix (angle : R) : Mat2 :=
  let r := ((cos angle, - sin angle),
            (sin angle, cos angle)) in
  r.

End Rotation.

(** ** Least squares: the matrix of powers *)

Module LeastSquares.

(** A two-dimensional array as the list of its rows. *)
Definition Matrix : Type := list (list R).

(** [np.zeros((m, degree))]. *)
Definition zeros (m degree : nat) : Matrix := repeat (repeat 0 degree) m.

(** The value [v] assigned to a slice of [m] entries: [m] entries, or one
    entry that is repeated; any other length is a ValueError. *)
Definition broadcast_to (m : nat) (v : list R) : result (list R) :=
  if (length v =? m)%nat then Ok v
  else match v with
       | [a] => Ok (repeat a m)
       | _ => Raise ValueError
       end.

Fixpoint update {A} (l : list A) (n : nat) (a : A) : list A :=
  match l, n with
  | [], _ => []
  | _ :: l', O => a :: l'
  | x :: l', S n' => x :: update l' n' a
  end.

(** [H[:, j] = v] on an array of [degree] columns. *)
Definition set_column (degree : nat) (H : Matrix) (j : Z) (v : list R)
  : result Matrix :=
  j' <- axis_index (Z.of_nat degree) j ;;
  col <- broadcast_to (length H) v ;;
  Ok (map (fun ra => update (fst ra) (Z.to_nat j') (snd ra)) (combine H col)).

(** The loop of [make_H] over the values [i] of [np.arange]. *)
Fixpoint make_H_loop (degree : nat) (t : list R) (indices : list nat)
  (H : Matrix) : result Matrix :=
  match indices with
  | [] => Ok H
  | i :: indices' =>
      H' <- set_column degree H (- Z.of_nat i - 1) (map (fun v => v ^ i) t) ;;
      make_H_loop degree t indices' H'
  end.

(** [make_H(m, degree, t)], for a one-dimensional array [t];
    [np.arange(degree-1, -1, -1)] is [degree - 1, ..., 1, 0]. *)
Definition make_H (m degree : nat) (t : list R) : result Matrix :=
  let H := zeros m degree in
  make_H_loop degree t (rev (seq 0 degree)) H.

(** [H @ x] for a vector [x]. *)
Definition dot (row x : list R) : R :=
  fold_right Rplus 0 (map (fun ab => fst ab * snd ab) (combine row x)).

Definition matvec (H : Matrix) (x : list R) : list R :=
  map (fun row => dot row x) H.

End LeastSquares.

(** The value at [t] of the polynomial of coefficients [coeffs], the
    highest power first, by Horner's rule. *)
Definition horner (coeffs : list R) (t : R) : R :=
  fold_left (fun acc c => acc * t + c) coeffs 0.

(** * Properties *)

(** ** Truncation *)

Lemma py_int_IZR (z : Z) : py_int (IZR z) = z.
Proof.
  unfold py_int. destruct (Rle_dec 0 (IZR z)).
  - apply ZfloorZ.
  - apply Zceil_eq. lra.
Qed.

Lemma py_int_nonneg (x : R) (z : Z) :
  0 <= IZR z -> IZR z <= x < IZR z + 1 -> py_int x = z.
Proof.
  intros Hz Hx. unfold py_int.
  destruct (Rle_dec 0 x) as [_ | Hn]; [ now apply Zfloor_eq | lra ].
Qed.

Lemma py_int_succ_lower (x : R) : 0 <= x -> (1 <= py_int (x + 1))%Z.
Proof.
  intros Hx. unfold py_int.
  destruct (Rle_dec 0 (x + 1)) as [_ | Hn]; [ | lra ].
  apply (Zfloor_lub 1). lra.
Qed.

Lemma py_int_succ_upper (x : R) (i : Z) :
  0 <= x -> (i < py_int (x + 1))%Z -> IZR i <= x.
Proof.
  intros Hx Hi. unfold py_int in Hi.
  destruct (Rle_dec 0 (x + 1)) as [_ | Hn]; [ | lra ].
  assert (Hb := Zfloor_bound (x + 1)).
  assert (Hle : (i + 1 <= Zfloor (x + 1))%Z) by lia.
  apply IZR_le in Hle. rewrite plus_IZR in Hle. lra.
Qed.


(** ** The sensor model *)

Lemma norm_pdf_unit (x loc : R) :
  norm_pdf x loc 1 = exp (- ((x - loc) * (x - loc)) / 2) / sqrt (2 * PI).
Proof.
  unfold norm_pdf.
  replace ((x - loc) / 1 * ((x - loc) / 1)) with ((x - loc) * (x - loc)) by field.
  field.
  apply Rgt_not_eq, sqrt_lt_R0. generalize PI_RGT_0; lra.
Qed.

Lemma norm_pdf_unit_pos (x loc : R) : 0 < norm_pdf x loc 1.
Proof.
  rewrite norm_pdf_unit. apply Rdiv_lt_0_compat.
  - apply exp_pos.
  - apply sqrt_lt_R0. generalize PI_RGT_0; lra.
Qed.

Lemma py_div_ok (a b : R) : b <> 0 -> py_div a b = Ok (a / b).
Proof.
  intros Hb. unfold py_div. destruct (Req_dec_T b 0); [ contradiction | reflexivity ].
Qed.

Lemma lookup_prob_ok (s : LidarSensor.t) (ed md : R) :
  LidarSensor._max_range s <> 0 ->
  LidarSensor.lookup_prob s ed md =
    Ok (0.95 * norm_pdf md ed 1 + 0.03 * (1 / LidarSensor._max_range s)
        + (if Req_dec_T md (LidarSensor._max_range s) then 0.02 else 0)).
Proof.
  intros Hr. unfold LidarSensor.lookup_prob.
  rewrite (py_div_ok 1 _ Hr). reflexivity.
Qed.

Lemma lookup_prob_pos (s : LidarSensor.t) (ed md : R) :
  0 < LidarSensor._max_range s ->
  exists p, LidarSensor.lookup_prob s ed md = Ok p /\ 0 < p.
Proof.
  intros Hr. eexists. split.
  - apply lookup_prob_ok. lra.
  - assert (Hn := norm_pdf_unit_pos md ed).
    assert (Hq : 0 < 1 / LidarSensor._max_range s)
      by (apply Rdiv_lt_0_compat; lra).
    destruct (Req_dec_T md (LidarSensor._max_range s)); lra.
Qed.

(** C3. For a sensor whose [max_range] is not zero, [lookup_prob] returns
    0.95 times the Gaussian density of mean [expected_dist] and standard
    deviation 1 at [measured_dist], plus 0.03 * (1 / max_range), plus 0.02
    when [measured_dist == max_range] and 0 otherwise. *)
Theorem lookup_prob_mixture (s : LidarSensor.t) (expected_dist measured_dist : R) :
  LidarSensor._max_range s <> 0 ->
  LidarSensor.lookup_prob s expected_dist measured_dist =
    Ok (0.95 * (exp (- ((measured_dist - expected_dist)
                        * (measured_dist - expected_dist)) / 2)
                / sqrt (2 * PI))
        + 0.03 * (1 / LidarSensor._max_range s)
        + (if Req_dec_T measured_dist (LidarSensor._max_range s)
           then 0.02 else 0)).
Proof.
  intros Hr. rewrite (lookup_prob_ok s _ _ Hr), norm_pdf_unit. reflexivity.
Qed.

Lemma lookup_prob_mixture_witness :
  LidarSensor.lookup_prob (sensor_of 100) 70 100 =
    Ok (0.95 * (exp (- ((100 - 70) * (100 - 70)) / 2) / sqrt (2 * PI))
        + 0.03 * (1 / 100)
        + (if Req_dec_T 100 100 then 0.02 else 0)).
Proof.
  apply (lookup_prob_mixture (sensor_of 100) 70 100). simpl. lra.
Defined.

Lemma py_int_0 : py_int 0 = 0%Z.
Proof. apply (py_int_IZR 0). Qed.

(** What the random branch does with a tape. *)
Lemma random_measure_run (s : LidarSensor.t) (t : tape) :
  LidarSensor._random_measure s t =
    let hi := (py_int (LidarSensor._max_range s + 1) - 1)%Z in
    if (int_max <? hi)%Z then Some (Raise ValueError, t)
    else if (hi <? 0)%Z then Some (Raise ValueError, t)
    else match t with
         | Index i :: t' =>
             if ((0 <=? i) && (i <=? hi))%Z then Some (Ok (IZR i), t') else None
         | _ => None
         end.
Proof.
  unfold LidarSensor._random_measure, rbind, randint, ret.
  rewrite py_int_0. cbv zeta.
  change (0 <? int_min)%Z with false. cbv iota.
  destruct (int_max <? py_int (LidarSensor._max_range s + 1) - 1)%Z;
    [ reflexivity | ].
  destruct (py_int (LidarSensor._max_range s + 1) - 1 <? 0)%Z; [ reflexivity | ].
  destruct t as [ | [p | z | i] t']; try reflexivity.
  destruct ((0 <=? i) && (i <=? py_int (LidarSensor._max_range s + 1) - 1))%Z;
    reflexivity.
Qed.

Lemma random_measure_range (s : LidarSensor.t) (r : R) :
  0 <= LidarSensor._max_range s ->
  can_return (LidarSensor._random_measure s) r ->
  exists i, r = IZR i /\ (0 <= i)%Z /\ IZR i <= LidarSensor._max_range s.
Proof.
  intros Hr (t & t' & Hrun). rewrite random_measure_run in Hrun. cbv zeta in Hrun.
  destruct (int_max <? py_int (LidarSensor._max_range s + 1) - 1)%Z;
    [ discriminate | ].
  destruct (py_int (LidarSensor._max_range s + 1) - 1 <? 0)%Z; [ discriminate | ].
  destruct t as [ | [p | z | i] t0]; try discriminate.
  destruct ((0 <=? i) && (i <=? py_int (LidarSensor._max_range s + 1) - 1))%Z
    eqn:Hi; [ | discriminate ].
  apply andb_true_iff in Hi. destruct Hi as [Hlo Hhi].
  apply Z.leb_le in Hlo. apply Z.leb_le in Hhi.
  injection Hrun as Hv _. exists i. repeat split; auto.
  apply py_int_succ_upper; [ assumption | lia ].
Qed.

Lemma random_measure_reach (s : LidarSensor.t) (i : Z) (t : tape) :
  (0 <= i < py_int (LidarSensor._max_range s + 1))%Z ->
  (py_int (LidarSensor._max_range s + 1) - 1 <= int_max)%Z ->
  LidarSensor._random_measure s (Index i :: t) = Some (Ok (IZR i), t).
Proof.
  intros Hi Hmax. rewrite random_measure_run. cbv zeta.
  destruct (Z.ltb_spec int_max (py_int (LidarSensor._max_range s + 1) - 1));
    [ lia | ].
  destruct (Z.ltb_spec (py_int (LidarSensor._max_range s + 1) - 1) 0);
    [ lia | ].
  replace (0 <=? i)%Z with true by (symmetry; apply Z.leb_le; lia).
  replace (i <=? py_int (LidarSensor._max_range s + 1) - 1)%Z with true
    by (symmetry; apply Z.leb_le; lia).
  reflexivity.
Qed.

(** A [max_range] below 2^31 leaves [max_range + 1] inside the integer
    dtype, of 32 or of 64 bits. *)
Lemma py_int_succ_fits (x : R) :
  0 <= x < 2147483648 -> (py_int (x + 1) - 1 <= int_max)%Z.
Proof.
  intros Hx. unfold py_int.
  destruct (Rle_dec 0 (x + 1)) as [_ | Hn]; [ | lra ].
  assert (Hb := Zfloor_bound (x + 1)).
  assert (Hlt : IZR (Zfloor (x + 1)) < IZR 2147483649) by lra.
  apply lt_IZR in Hlt. unfold int_max. lia.
Qed.

Lemma py_int_succ_IZR (n : Z) : py_int (IZR n + 1) = (n + 1)%Z.
Proof. rewrite <- plus_IZR. apply py_int_IZR. Qed.

Lemma rand_run (p : R) (t : tape) : 0 <= p < 1 -> rand (Uniform p :: t) = Some (Ok p, t).
Proof.
  intros [H0 H1]. unfold rand.
  destruct (Rle_dec 0 p); [ | contradiction ].
  destruct (Rlt_dec p 1); [ reflexivity | contradiction ].
Qed.

Lemma rand_inv (t : tape) :
  rand t <> None -> exists p t', t = Uniform p :: t' /\ 0 <= p < 1.
Proof.
  unfold rand. destruct t as [ | [p | z | i] t']; try congruence.
  destruct (Rle_dec 0 p); [ | congruence ].
  destruct (Rlt_dec p 1); [ | congruence ].
  intros _. exists p, t'. auto.
Qed.

Lemma measure_first_draw (s : LidarSensor.t) (e : R) (t : tape) :
  LidarSensor.measure s e t <> None ->
  exists p t', t = Uniform p :: t' /\ 0 <= p < 1.
Proof.
  intros Hrun. apply rand_inv. intros Hnone. apply Hrun.
  unfold LidarSensor.measure, rbind. now rewrite Hnone.
Qed.

Lemma measure_hit (s : LidarSensor.t) (e p z : R) (t : tape) :
  0 <= p < 1 -> p <= 0.95 ->
  LidarSensor.measure s e (Uniform p :: Gauss z :: t) = Some (Ok (e + 1 * z), t).
Proof.
  intros Hp Hhit. unfold LidarSensor.measure, rbind. rewrite (rand_run p _ Hp).
  destruct (Rle_dec p 0.95); [ reflexivity | contradiction ].
Qed.

Lemma measure_random (s : LidarSensor.t) (e p : R) (t : tape) :
  0 <= p < 1 -> 0.95 < p <= 0.98 ->
  LidarSensor.measure s e (Uniform p :: t) = LidarSensor._random_measure s t.
Proof.
  intros Hp [Hlo Hhi]. unfold LidarSensor.measure, rbind. rewrite (rand_run p _ Hp).
  destruct (Rle_dec p 0.95); [ lra | ].
  destruct (Rle_dec p 0.98); [ reflexivity | contradiction ].
Qed.

Lemma measure_failure (s : LidarSensor.t) (e p : R) (t : tape) :
  0 <= p < 1 -> 0.98 < p ->
  LidarSensor.measure s e (Uniform p :: t) = Some (Ok (LidarSensor.max_range s), t).
Proof.
  intros Hp Hfail. unfold LidarSensor.measure, rbind. rewrite (rand_run p _ Hp).
  destruct (Rle_dec p 0.95); [ lra | ].
  destruct (Rle_dec p 0.98); [ lra | reflexivity ].
Qed.

(** C4. [measure] first reads one uniform number [p] of [0, 1) and nothing
    else before it; then, in this order, [p <= 0.95] returns the Gaussian
    draw [expected_dist + 1 * z], [0.95 < p <= 0.98] runs the random branch
    on the rest of the tape, and any other [p] returns [max_range] without
    a further draw. *)
Theorem measure_branches (s : LidarSensor.t) (expected_dist : R) :
  (forall t, LidarSensor.measure s expected_dist t <> None ->
             exists p t', t = Uniform p :: t' /\ 0 <= p < 1)
  /\ (forall p t, 0 <= p < 1 ->
        (p <= 0.95 ->
           forall z t',
             LidarSensor.measure s expected_dist (Uniform p :: Gauss z :: t')
             = Some (Ok (expected_dist + 1 * z), t'))
        /\ (0.95 < p <= 0.98 ->
              LidarSensor.measure s expected_dist (Uniform p :: t)
              = LidarSensor._random_measure s t)
        /\ (0.98 < p ->
              LidarSensor.measure s expected_dist (Uniform p :: t)
              = Some (Ok (LidarSensor.max_range s), t))).
Proof.
  split.
  - intros t. apply measure_first_draw.
  - intros p t Hp. repeat split.
    + intros Hhit z t'. now apply measure_hit.
    + intros Hrandom. now apply measure_random.
    + intros Hfail. now apply measure_failure.
Qed.

Lemma measure_branches_witness :
  LidarSensor.measure (sensor_of 100) 70 [Uniform 0.5; Gauss 2]
  = Some (Ok (70 + 1 * 2), [])
  /\ LidarSensor.measure (sensor_of 100) 70 [Uniform 0.95; Gauss 2]
     = Some (Ok (70 + 1 * 2), [])
  /\ LidarSensor.measure (sensor_of 100) 70 [Uniform 0.98; Index 42]
     = LidarSensor._random_measure (sensor_of 100) [Index 42]
  /\ LidarSensor.measure (sensor_of 100) 70 [Uniform 0.99]
     = Some (Ok 100, []).
Proof.
  destruct (measure_branches (sensor_of 100) 70) as [_ H].
  repeat split.
  - apply (H 0.5 []); lra.
  - apply (H 0.95 []); lra.
  - apply (H 0.98 [Index 42]); lra.
  - apply (H 0.99 []); lra.
Defined.

(** C5, as stated, fails: with [max_range = 1] the value 1/2 lies in
    [0, max_range], and no draw makes the random branch return it. *)
Lemma random_measure_misses_half :
  0 <= 1 / 2 <= LidarSensor.max_range (sensor_of 1)
  /\ ~ can_return (LidarSensor._random_measure (sensor_of 1)) (1 / 2).
Proof.
  split; [ simpl; lra | ].
  intros Hc. apply random_measure_range in Hc; [ | simpl; lra ].
  destruct Hc as (i & Hi & _).
  assert (H2 : IZR (2 * i) = IZR 1) by (rewrite mult_IZR; lra).
  apply eq_IZR in H2. lia.
Qed.

(** C5, amended. For an integer [max_range] with
    [0 <= max_range < 2^31], so that [max_range + 1] fits the integer dtype,
    the readings of the random branch are exactly the integers 0, 1, ...,
    [max_range]: the branch returns the value of
    [np.random.randint(0, max_range + 1)]. *)
Theorem random_measure_integer_draw (n : Z) (r : R) :
  (0 <= n < 2147483648)%Z ->
  can_return (LidarSensor._random_measure (sensor_of (IZR n))) r
  <-> exists i, (0 <= i <= n)%Z /\ r = IZR i.
Proof.
  intros Hn. split.
  - intros Hc. apply random_measure_range in Hc;
      [ | simpl; apply IZR_le; lia ].
    destruct Hc as (i & Hr & Hlo & Hhi). simpl in Hhi. apply le_IZR in Hhi.
    exists i. auto.
  - intros (i & Hi & ->). exists [Index i], [].
    apply random_measure_reach; simpl; rewrite py_int_succ_IZR;
      unfold int_max; lia.
Qed.

Lemma random_measure_integer_draw_witness :
  can_return (LidarSensor._random_measure (sensor_of (IZR 100))) (IZR 37).
Proof.
  apply (random_measure_integer_draw 100 (IZR 37)); [ lia | ].
  exists 37%Z. split; [ lia | reflexivity ].
Defined.

(** C10. For an integer [max_range] with [0 < max_range < 2^31], so that
    [max_range + 1] fits the integer dtype, the random branch returns
    exactly [max_range] on the draw [max_range] of [randint], [measure]
    reaches that branch, and [lookup_prob] gives such a reading the term
    0.02 of the failure branch. *)
Theorem random_branch_reaches_max_range (n : Z) (expected_dist : R) :
  (0 < n < 2147483648)%Z ->
  let s := sensor_of (IZR n) in
  can_return (LidarSensor._random_measure s) (LidarSensor.max_range s)
  /\ LidarSensor.measure s expected_dist [Uniform 0.97; Index n]
     = Some (Ok (LidarSensor.max_range s), [])
  /\ forall ed,
       LidarSensor.lookup_prob s ed (LidarSensor.max_range s)
       = Ok (0.95 * norm_pdf (LidarSensor.max_range s) ed 1
             + 0.03 * (1 / LidarSensor.max_range s) + 0.02).
Proof.
  intros Hn s.
  assert (Hreach : forall t,
             LidarSensor._random_measure s (Index n :: t) = Some (Ok (IZR n), t)).
  { intros t. apply random_measure_reach; simpl; rewrite py_int_succ_IZR;
      unfold int_max; lia. }
  repeat split.
  - exists [Index n], []. apply Hreach.
  - rewrite measure_random by lra. apply Hreach.
  - intros ed. rewrite lookup_prob_ok.
    + unfold LidarSensor.max_range.
      destruct (Req_dec_T (LidarSensor._max_range s) (LidarSensor._max_range s));
        [ reflexivity | contradiction ].
    + simpl. apply not_0_IZR. lia.
Qed.

Lemma random_branch_reaches_max_range_witness :
  LidarSensor.measure (sensor_of (IZR 100)) 70 [Uniform 0.97; Index 100]
  = Some (Ok (LidarSensor.max_range (sensor_of (IZR 100))), []).
Proof.
  apply (random_branch_reaches_max_range 100 70). lia.
Defined.

(** Beyond the integer dtype: with [max_range = 2^63] the random branch
    raises ValueError ("high is out of bounds") on every tape. *)
Example random_measure_beyond_dtype (t : tape) :
  LidarSensor._random_measure (sensor_of (IZR (2 ^ 63))) t
  = Some (Raise ValueError, t).
Proof.
  rewrite random_measure_run. cbv zeta. simpl LidarSensor._max_range.
  rewrite py_int_succ_IZR. reflexivity.
Qed.

(** ** The ray caster *)

Lemma axis_index_inrange (n i : Z) : (0 <= i < n)%Z -> axis_index n i = Ok i.
Proof.
  intros Hi. unfold axis_index.
  replace ((0 <=? i) && (i <? n))%Z with true; [ reflexivity | ].
  symmetry. apply andb_true_iff. split; [ apply Z.leb_le | apply Z.ltb_lt ]; lia.
Qed.

Lemma inbounds_spec (g : Grid) (x y : Z) :
  inbounds g x y = true <-> (0 <= x < shape1 g)%Z /\ (0 <= y < shape0 g)%Z.
Proof.
  unfold inbounds. rewrite !andb_true_iff, !Z.leb_le, !Z.ltb_lt. lia.
Qed.

Lemma getitem_inbounds (g : Grid) (x y : Z) :
  inbounds g x y = true -> getitem g y x = Ok (cell g y x).
Proof.
  intros Hin. apply inbounds_spec in Hin. destruct Hin as [Hx Hy].
  unfold getitem. rewrite (axis_index_inrange _ _ Hy). simpl.
  rewrite (axis_index_inrange _ _ Hx). reflexivity.
Qed.

Section Walk.

Variables (g : Grid) (x y : R).

Lemma walk_out (c : Z * Z) (cells : list (Z * Z)) (dist : R) (loc : R * R) :
  inbounds g (fst c) (snd c) = false ->
  walk g x y (c :: cells) dist loc = Ok (dist, loc).
Proof. intros Hout. simpl. now rewrite Hout. Qed.

Lemma walk_free (c : Z * Z) (cells : list (Z * Z)) (dist : R) (loc : R * R) :
  inbounds g (fst c) (snd c) = true -> ~ occupied g c ->
  walk g x y (c :: cells) dist loc = walk g x y cells dist loc.
Proof.
  intros Hin Hfree. simpl. rewrite Hin, (getitem_inbounds _ _ _ Hin). simpl.
  destruct (Z.eqb_spec (cell g (snd c) (fst c)) 1); [ contradiction | reflexivity ].
Qed.

Lemma walk_hit (c : Z * Z) (cells : list (Z * Z)) (dist : R) (loc : R * R) :
  inbounds g (fst c) (snd c) = true -> occupied g c ->
  walk g x y (c :: cells) dist loc =
    Ok (norm2 (x - IZR (fst c)) (y - IZR (snd c)), (IZR (fst c), IZR (snd c))).
Proof.
  intros Hin Hocc. simpl. rewrite Hin, (getitem_inbounds _ _ _ Hin). simpl.
  unfold occupied in Hocc. now rewrite Hocc.
Qed.

(** The cells in bounds and free are passed over. *)
Lemma walk_skip (pre rest : list (Z * Z)) (dist : R) (loc : R * R) :
  (forall c, In c pre -> inbounds g (fst c) (snd c) = true /\ ~ occupied g c) ->
  walk g x y (pre ++ rest) dist loc = walk g x y rest dist loc.
Proof.
  induction pre as [ | c pre IH]; intros Hpre; [ reflexivity | ].
  rewrite <- app_comm_cons.
  destruct (Hpre c (or_introl eq_refl)) as [Hin Hfree].
  rewrite (walk_free _ _ _ _ Hin Hfree).
  apply IH. intros c' Hc'. apply Hpre. now right.
Qed.

Lemma walk_traversed_free (cells : list (Z * Z)) (dist : R) (loc : R * R) :
  (forall c, In c (traversed g cells) -> ~ occupied g c) ->
  walk g x y cells dist loc = Ok (dist, loc).
Proof.
  induction cells as [ | c cells IH]; intros Hfree; [ reflexivity | ].
  simpl in Hfree.
  destruct (inbounds g (fst c) (snd c)) eqn:Hin.
  - rewrite walk_free; auto.
    + apply IH. intros c' Hc'. apply Hfree. now right.
    + apply Hfree. now left.
  - now apply walk_out.
Qed.

(** The loop ends, without an exception, on the initial values or on a
    hit. *)
Lemma walk_result (cells : list (Z * Z)) (dist : R) (loc : R * R) :
  walk g x y cells dist loc = Ok (dist, loc)
  \/ exists c, In c (traversed g cells) /\ occupied g c
               /\ walk g x y cells dist loc =
                    Ok (norm2 (x - IZR (fst c)) (y - IZR (snd c)),
                        (IZR (fst c), IZR (snd c))).
Proof.
  induction cells as [ | c cells IH]; [ now left | ].
  destruct (inbounds g (fst c) (snd c)) eqn:Hin.
  - destruct (Z.eq_dec (cell g (snd c) (fst c)) 1) as [Hocc | Hfree].
    + right. exists c. simpl traversed. rewrite Hin.
      split; [ now left | split; [ exact Hocc | now apply walk_hit ] ].
    + rewrite (walk_free _ _ _ _ Hin Hfree).
      destruct IH as [IH | (c' & Hc' & Hocc & IH)]; [ now left | ].
      right. exists c'. simpl traversed. rewrite Hin.
      split; [ now right | auto ].
  - left. now apply walk_out.
Qed.

End Walk.

Lemma norm2_nonneg (dx dy : R) : 0 <= norm2 dx dy.
Proof. apply sqrt_pos. Qed.

Section GetDistance.

Variable bresenham : Z -> Z -> Z -> Z -> list (Z * Z).
Variables (g : Grid) (s : LidarSensor.t) (x y angle : R).

Let x2 := x + LidarSensor.max_range s * cos angle.
Let y2 := y + LidarSensor.max_range s * sin angle.
Let cells := bresenham (py_int x) (py_int y) (py_int x2) (py_int y2).

Lemma get_distance_walk :
  get_distance bresenham g s x y angle =
    walk g x y cells (LidarSensor.max_range s) (x2, y2).
Proof. reflexivity. Qed.

Lemma get_distance_total :
  exists d loc, get_distance bresenham g s x y angle = Ok (d, loc)
                /\ (0 <= LidarSensor.max_range s -> 0 <= d).
Proof.
  rewrite get_distance_walk.
  destruct (walk_result g x y cells (LidarSensor.max_range s) (x2, y2))
    as [H | (c & _ & _ & H)]; rewrite H.
  - eexists _, _. split; [ reflexivity | auto ].
  - eexists _, _. split; [ reflexivity | intros _; apply norm2_nonneg ].
Qed.

(** C6. [get_distance] returns [max_range] as the distance when the walk
    stops at a cell out of bounds before any occupied cell, when the
    enumeration ends without an occupied cell, and hence, whatever the pose
    and the angle, on a grid without occupied cells. *)
Theorem get_distance_max_range_without_hit :
  (forall pre c post,
      cells = pre ++ c :: post ->
      (forall c', In c' pre ->
                  inbounds g (fst c') (snd c') = true /\ ~ occupied g c') ->
      inbounds g (fst c) (snd c) = false ->
      exists loc, get_distance bresenham g s x y angle
                  = Ok (LidarSensor.max_range s, loc))
  /\ ((forall c', In c' cells ->
                  inbounds g (fst c') (snd c') = true /\ ~ occupied g c') ->
      exists loc, get_distance bresenham g s x y angle
                  = Ok (LidarSensor.max_range s, loc))
  /\ ((forall i j, cell g i j <> 1%Z) ->
      exists loc, get_distance bresenham g s x y angle
                  = Ok (LidarSensor.max_range s, loc)).
Proof.
  rewrite get_distance_walk. repeat split.
  - intros pre c post Hcells Hpre Hout. exists (x2, y2).
    rewrite Hcells, (walk_skip _ _ _ _ _ _ _ Hpre). now apply walk_out.
  - intros Hall. exists (x2, y2).
    rewrite <- (app_nil_r cells), (walk_skip _ _ _ _ _ _ _ Hall). reflexivity.
  - intros Hfree. exists (x2, y2). apply walk_traversed_free.
    intros c _. apply Hfree.
Qed.


End GetDistance.

(** Two concrete rays, cast along the x axis with the line rasterizer of
    [Bresenham]. *)
Lemma cells_east_1_1_range_2 :
  let s := sensor_of 2 in
  Bresenham.bresenham (py_int 1) (py_int 1)
    (py_int (1 + LidarSensor.max_range s * cos 0))
    (py_int (1 + LidarSensor.max_range s * sin 0))
  = [(1, 1); (2, 1); (3, 1)]%Z.
Proof.
  cbv zeta. cbn [LidarSensor.max_range LidarSensor._max_range sensor_of].
  rewrite cos_0, sin_0.
  replace (1 + 2 * 1) with 3 by lra. replace (1 + 2 * 0) with 1 by lra.
  rewrite (py_int_IZR 1), (py_int_IZR 3). reflexivity.
Qed.

Lemma cells_west_range_2 :
  let s := sensor_of 2 in
  Bresenham.bresenham (py_int 10.5) (py_int 0)
    (py_int (10.5 + LidarSensor.max_range s * cos PI))
    (py_int (0 + LidarSensor.max_range s * sin PI))
  = [(10, 0); (9, 0); (8, 0)]%Z.
Proof.
  cbv zeta. cbn [LidarSensor.max_range LidarSensor._max_range sensor_of].
  rewrite cos_PI, sin_PI.
  replace (10.5 + 2 * -1) with 8.5 by lra. replace (0 + 2 * 0) with 0 by lra.
  rewrite (py_int_nonneg 10.5 10), (py_int_nonneg 8.5 8), py_int_0 by lra.
  reflexivity.
Qed.

Lemma get_distance_max_range_without_hit_witness :
  (exists loc, get_distance Bresenham.bresenham (free_grid 3 3) (sensor_of 2) 1 1 0
               = Ok (LidarSensor.max_range (sensor_of 2), loc))
  /\ (exists loc, get_distance Bresenham.bresenham (free_grid 3 4) (sensor_of 2) 1 1 0
                  = Ok (LidarSensor.max_range (sensor_of 2), loc))
  /\ (exists loc, get_distance Bresenham.bresenham (free_grid 3 3) (sensor_of 2) 1 1 PI
                  = Ok (LidarSensor.max_range (sensor_of 2), loc)).
Proof.
  repeat split.
  - apply (get_distance_max_range_without_hit
             Bresenham.bresenham (free_grid 3 3) (sensor_of 2) 1 1 0)
      with (pre := [(1, 1); (2, 1)]%Z) (c := (3, 1)%Z) (post := []).
    + apply cells_east_1_1_range_2.
    + intros c' [<- | [<- | []]]; split; (reflexivity || discriminate).
    + reflexivity.
  - destruct (get_distance_max_range_without_hit
                Bresenham.bresenham (free_grid 3 4) (sensor_of 2) 1 1 0)
      as (_ & Hall & _).
    apply Hall. rewrite cells_east_1_1_range_2.
    intros c' [<- | [<- | [<- | []]]]; split; (reflexivity || discriminate).
  - apply (get_distance_max_range_without_hit
             Bresenham.bresenham (free_grid 3 3) (sensor_of 2) 1 1 PI).
    intros i j. discriminate.
Defined.


(** The rasterizer on the example of its package. *)
Example bresenham_example :
  Bresenham.bresenham (-1) (-4) 3 2
  = [(-1, -4); (0, -3); (0, -2); (1, -1); (2, 0); (2, 1); (3, 2)]%Z.
Proof. reflexivity. Qed.

Lemma sqrt2_bounds : 1.41 < sqrt 2 < 1.42.
Proof.
  split.
  - rewrite <- (sqrt_square 1.41) by lra. apply sqrt_lt_1_alt. lra.
  - rewrite <- (sqrt_square 1.42) by lra. apply sqrt_lt_1_alt. lra.
Qed.

Lemma diagonal_reach : 70 <= 100 * (1 / sqrt 2) < 71.
Proof.
  destruct sqrt2_bounds as [Hlo Hhi].
  replace (100 * (1 / sqrt 2)) with (100 / sqrt 2) by (field; lra).
  split.
  - apply Rmult_le_reg_r with (sqrt 2); [ lra | ].
    unfold Rdiv. rewrite Rmult_assoc, Rinv_l by lra. lra.
  - apply Rmult_lt_reg_r with (sqrt 2); [ lra | ].
    unfold Rdiv. rewrite Rmult_assoc, Rinv_l by lra. lra.
Qed.

(** The ray of the notebook: from the ground truth state (385, 450), at 45
    degrees, with a range of 100.  When the first obstacle on the diagonal
    is the cell (435, 500), the result is the one the notebook prints:
    distance 70.71067811865476, the square root of 5000, at [435, 500]. *)
Example notebook_ray (g : Grid) :
  (forall i, (0 <= i < 50)%Z ->
             inbounds g (385 + i) (450 + i) = true
             /\ cell g (450 + i) (385 + i) <> 1%Z) ->
  inbounds g 435 500 = true ->
  cell g 500 435 = 1%Z ->
  get_distance Bresenham.bresenham g (sensor_of 100) 385 450 (radians 45)
  = Ok (sqrt 5000, (435, 500)).
Proof.
  intros Hfree Hin Hocc. rewrite get_distance_walk.
  replace (radians 45) with (PI / 4) by (unfold radians; field).
  rewrite cos_PI4, sin_PI4.
  cbn [LidarSensor.max_range LidarSensor._max_range sensor_of].
  assert (Hd := diagonal_reach).
  rewrite (py_int_nonneg (385 + 100 * (1 / sqrt 2)) 455) by lra.
  rewrite (py_int_nonneg (450 + 100 * (1 / sqrt 2)) 520) by lra.
  rewrite (py_int_IZR 385), (py_int_IZR 450).
  set (diag := fun i : nat => ((385 + Z.of_nat i)%Z, (450 + Z.of_nat i)%Z)).
  replace (Bresenham.bresenham 385 450 455 520)
    with (map diag (seq 0 50) ++ (435, 500)%Z :: map diag (seq 51 20))
    by (vm_compute; reflexivity).
  rewrite walk_skip.
  - rewrite walk_hit by assumption. unfold norm2. cbn [fst snd].
    replace ((385 - 435) * (385 - 435) + (450 - 500) * (450 - 500)) with 5000
      by lra.
    reflexivity.
  - intros c Hc. apply in_map_iff in Hc. destruct Hc as (i & <- & Hi).
    apply in_seq in Hi. unfold diag, occupied. cbn [fst snd].
    apply Hfree. lia.
Qed.

(** ** Loops that collect results *)

Lemma mapM_Forall2 {A B} (f : A -> result B) (l : list A) (bs : list B) :
  mapM f l = Ok bs <-> Forall2 (fun a b => f a = Ok b) l bs.
Proof.
  revert bs. induction l as [ | a l IH]; intros bs; simpl.
  - split.
    + intros H. injection H as <-. constructor.
    + intros H. inversion H. reflexivity.
  - split.
    + destruct (f a) as [b | e] eqn:Hfa; simpl; [ | discriminate ].
      destruct (mapM f l) as [bs' | e] eqn:Hl; simpl; [ | discriminate ].
      intros H. injection H as <-. constructor; [ exact Hfa | now apply IH ].
    + intros H. inversion H as [ | a' b l' bs' Hfa Hl]; subst.
      rewrite Hfa. simpl. apply IH in Hl. rewrite Hl. reflexivity.
Qed.

Lemma mapM_total {A B} (f : A -> result B) (P : B -> Prop) (l : list A) :
  (forall a, In a l -> exists b, f a = Ok b /\ P b) ->
  exists bs, mapM f l = Ok bs /\ length bs = length l /\ Forall P bs.
Proof.
  induction l as [ | a l IH]; intros Hf.
  - exists []. simpl. auto.
  - destruct (Hf a (or_introl eq_refl)) as (b & Hb & HP).
    destruct IH as (bs & Hbs & Hlen & HPs).
    { intros a' Ha'. apply Hf. now right. }
    exists (b :: bs). simpl. rewrite Hb. simpl. rewrite Hbs. simpl.
    repeat split; [ now f_equal | now constructor ].
Qed.

Section ShootRays.

Variable bresenham : Z -> Z -> Z -> Z -> list (Z * Z).
Variables (g : Grid) (s : LidarSensor.t).

Lemma shoot_rays_total (state : State) (k : nat) :
  exists ds, shoot_rays bresenham g s state k = Ok ds
             /\ length ds = k
             /\ Forall (fun d => 0 <= LidarSensor.max_range s -> 0 <= d) ds.
Proof.
  destruct state as [[x y] theta]. unfold shoot_rays.
  match goal with
  | |- exists ds, mapM ?f _ = _ /\ _ =>
      destruct (mapM_total f
                  (fun d => 0 <= LidarSensor.max_range s -> 0 <= d) (seq 0 k))
        as (ds & Hds & Hlen & Hpos)
  end.
  - intros i Hi.
    assert (Hk : INR k <> 0).
    { apply not_0_INR. intros ->. simpl in Hi. contradiction. }
    rewrite (py_div_ok _ _ Hk). simpl.
    destruct (get_distance_total bresenham g s x y
                (py_mod (theta + radians (INR i * (360 / INR k))) (2 * PI)))
      as (d & loc & Hd & Hd0).
    rewrite Hd. simpl. exists d. auto.
  - exists ds. rewrite length_seq in Hlen. auto.
Qed.

End ShootRays.

(** ** Range of the readings and of the expected distances *)

(** C8, as stated, fails: a hit reading is a Gaussian draw that leaves
    [0, max_range] on either side, and the distance to a hit cell, measured
    to the integer cell, exceeds a [max_range] of 2 from the pose
    (10.5, 0). *)
Lemma readings_leave_range :
  (exists r, LidarSensor.measure (sensor_of 100) 100 [Uniform 0.5; Gauss 1]
             = Some (Ok r, [])
             /\ LidarSensor.max_range (sensor_of 100) < r)
  /\ (exists r, LidarSensor.measure (sensor_of 100) 0 [Uniform 0.5; Gauss (-1)]
                = Some (Ok r, [])
                /\ r < 0)
  /\ (exists d loc,
         get_distance Bresenham.bresenham (one_obstacle 1 11 8 0) (sensor_of 2)
           10.5 0 PI = Ok (d, loc)
         /\ LidarSensor.max_range (sensor_of 2) < d).
Proof.
  repeat split.
  - eexists. split; [ apply measure_hit; lra | simpl; lra ].
  - eexists. split; [ apply measure_hit; lra | lra ].
  - exists 2.5, (8, 0). split; [ | simpl; lra ].
    rewrite get_distance_walk.
    assert (Hcells := cells_west_range_2). cbv zeta in Hcells. rewrite Hcells.
    rewrite walk_free by (reflexivity || discriminate).
    rewrite walk_free by (reflexivity || discriminate).
    rewrite walk_hit by reflexivity.
    unfold norm2. cbn [fst snd].
    replace ((10.5 - 8) * (10.5 - 8) + (0 - 0) * (0 - 0)) with (2.5 * 2.5) by lra.
    rewrite sqrt_square by lra. reflexivity.
Qed.

(** C8, amended. With [max_range >= 0], every reading of the random branch
    and of the failure branch of [measure] lies in [0, max_range], and every
    expected distance of [get_distance] and of [shoot_rays] is [>= 0];
    both functions return without an exception. *)
Theorem readings_and_distances_range (s : LidarSensor.t) :
  0 <= LidarSensor.max_range s ->
  (forall r, can_return (LidarSensor._random_measure s) r ->
             0 <= r <= LidarSensor.max_range s)
  /\ (forall e p t r t',
         0 <= p < 1 -> 0.95 < p ->
         LidarSensor.measure s e (Uniform p :: t) = Some (Ok r, t') ->
         0 <= r <= LidarSensor.max_range s)
  /\ (forall bresenham g x y angle,
         exists d loc, get_distance bresenham g s x y angle = Ok (d, loc)
                       /\ 0 <= d)
  /\ (forall bresenham g state k,
         exists ds, shoot_rays bresenham g s state k = Ok ds
                    /\ length ds = k
                    /\ Forall (fun d => 0 <= d) ds).
Proof.
  intros Hr.
  assert (Hrandom : forall r, can_return (LidarSensor._random_measure s) r ->
                              0 <= r <= LidarSensor.max_range s).
  { intros r Hc. destruct (random_measure_range s r Hr Hc) as (i & -> & Hlo & Hhi).
    split; [ now apply IZR_le | exact Hhi ]. }
  split; [ exact Hrandom | ]. split; [ | split ].
  - intros e p t r t' Hp Hhi Hrun.
    destruct (Rle_dec p 0.98) as [Hle | Hgt].
    + rewrite measure_random in Hrun by lra.
      apply (Hrandom r). now exists t, t'.
    + rewrite measure_failure in Hrun by lra.
      injection Hrun as <- _. lra.
  - intros bresenham g x y angle.
    destruct (get_distance_total bresenham g s x y angle) as (d & loc & Hd & Hpos).
    exists d, loc. auto.
  - intros bresenham g state k.
    destruct (shoot_rays_total bresenham g s state k) as (ds & Hds & Hlen & Hpos).
    exists ds. repeat split; auto.
    apply Forall_impl with (2 := Hpos). auto.
Qed.

Lemma readings_and_distances_range_witness :
  (forall r, can_return (LidarSensor._random_measure (sensor_of 100)) r ->
             0 <= r <= LidarSensor.max_range (sensor_of 100))
  /\ (exists ds, shoot_rays Bresenham.bresenham (one_obstacle 3 5 3 1)
                   (sensor_of 100) (1, 1, 0) 8 = Ok ds
                 /\ length ds = 8%nat
                 /\ Forall (fun d => 0 <= d) ds).
Proof.
  destruct (readings_and_distances_range (sensor_of 100)) as (H1 & _ & _ & H4).
  - simpl. lra.
  - split; [ exact H1 | apply H4 ].
Defined.

(** ** A [max_range] that is not positive *)



Lemma lookup_prob_zero_range (s : LidarSensor.t) (ed md : R) :
  LidarSensor._max_range s = 0 ->
  LidarSensor.lookup_prob s ed md = Raise ZeroDivisionError.
Proof.
  intros Hz. unfold LidarSensor.lookup_prob, py_div. rewrite Hz.
  destruct (Req_dec_T 0 0); [ reflexivity | contradiction ].
Qed.



(** ** Importance weights *)

Lemma product_pos (l : list R) : Forall (fun p => 0 < p) l -> 0 < product l.
Proof.
  induction 1 as [ | p l Hp _ IH]; simpl; [ lra | ].
  now apply Rmult_lt_0_compat.
Qed.

Lemma total_pos (l : list R) :
  l <> [] -> Forall (fun p => 0 < p) l -> 0 < total l.
Proof.
  intros Hne Hpos. destruct Hpos as [ | p l Hp Hl]; [ contradiction | ].
  simpl. clear Hne.
  assert (0 <= total l); [ | lra ].
  induction Hl as [ | q l Hq _ IH]; simpl; lra.
Qed.

Lemma fold_left_Rplus (l : list R) (a : R) : fold_left Rplus l a = a + total l.
Proof.
  revert a. induction l as [ | w l IH]; intros a; simpl; [ lra | ].
  rewrite IH. lra.
Qed.

Lemma total_scaled (l : list R) (d : R) :
  total (map (fun w => w / d) l) = total l / d.
Proof.
  induction l as [ | w l IH]; simpl; [ unfold Rdiv; lra | ].
  rewrite IH. unfold Rdiv. lra.
Qed.

Section Importance.

Variable bresenham : Z -> Z -> Z -> Z -> list (Z * Z).
Variables (g : Grid) (s : LidarSensor.t).
Hypothesis max_range_nonzero : LidarSensor._max_range s <> 0.

(** The loop multiplies the likelihoods of the pairs into [weight]. *)
Lemma importance_loop_product (pairs : list (R * R)) (weight : pynum) :
  exists ps w,
    Forall2 (fun em p => LidarSensor.lookup_prob s (fst em) (snd em) = Ok p)
      pairs ps
    /\ importance_loop s pairs weight = Ok w
    /\ value w = value weight * product ps
    /\ (pairs = [] -> w = weight)
    /\ (pairs <> [] -> is_int w = false)
    /\ (0 < LidarSensor._max_range s -> Forall (fun p => 0 < p) ps).
Proof.
  revert weight. induction pairs as [ | [ed md] pairs IH]; intros weight.
  - exists [], weight. simpl. repeat split; auto; try constructor; try lra.
    congruence.
  - destruct (IH (PyFloat (value weight
                           * (0.95 * norm_pdf md ed 1
                              + 0.03 * (1 / LidarSensor._max_range s)
                              + (if Req_dec_T md (LidarSensor._max_range s)
                                 then 0.02 else 0)))))
      as (ps & w & Hps & Hloop & Hval & Hnil & Hcons & Hpos).
    eexists (_ :: ps), w. simpl.
    rewrite (lookup_prob_ok s ed md max_range_nonzero). simpl.
    repeat split.
    + constructor; [ now apply lookup_prob_ok | exact Hps ].
    + exact Hloop.
    + rewrite Hval. simpl. lra.
    + discriminate.
    + intros _. destruct pairs as [ | em pairs'].
      * now rewrite Hnil.
      * apply Hcons. discriminate.
    + intros Hr. constructor; [ | auto ].
      destruct (lookup_prob_pos s ed md Hr) as (p & Hp & Hp0).
      rewrite (lookup_prob_ok s ed md max_range_nonzero) in Hp.
      injection Hp as <-. exact Hp0.
Qed.

Lemma importance_product (state : State) (measured : list R) :
  exists expected ps w,
    shoot_rays bresenham g s state (length measured) = Ok expected
    /\ length expected = length measured
    /\ Forall2 (fun em p => LidarSensor.lookup_prob s (fst em) (snd em) = Ok p)
         (combine expected measured) ps
    /\ importance bresenham g s state measured = Ok w
    /\ value w = product ps
    /\ (measured <> [] -> is_int w = false)
    /\ (0 < LidarSensor._max_range s -> 0 < value w).
Proof.
  destruct (shoot_rays_total bresenham g s state (length measured))
    as (expected & Hexp & Hlen & _).
  destruct (importance_loop_product (combine expected measured) (PyInt 1))
    as (ps & w & Hps & Hloop & Hval & _ & Hcons & Hpos).
  exists expected, ps, w. unfold importance. rewrite Hexp. simpl.
  simpl in Hval. repeat split; auto.
  - lra.
  - intros Hne. apply Hcons.
    destruct expected, measured; simpl in *; congruence.
  - intros Hr. rewrite Hval. specialize (Hpos Hr).
    assert (0 < product ps) by now apply product_pos. lra.
Qed.

End Importance.

(** C2. For a sensor whose [max_range] is not zero, [importance] casts
    [len(measured_distances)] rays with [shoot_rays], pairs the expected
    distances with the measured ones in order, and returns the product,
    started from 1, of [lookup_prob] of every pair. *)
Theorem importance_is_product
  (bresenham : Z -> Z -> Z -> Z -> list (Z * Z)) (g : Grid) (s : LidarSensor.t)
  (state : State) (measured_distances : list R) :
  LidarSensor._max_range s <> 0 ->
  exists expected ps w,
    shoot_rays bresenham g s state (length measured_distances) = Ok expected
    /\ length expected = length measured_distances
    /\ Forall2 (fun em p => LidarSensor.lookup_prob s (fst em) (snd em) = Ok p)
         (combine expected measured_distances) ps
    /\ length ps = length measured_distances
    /\ importance bresenham g s state measured_distances = Ok w
    /\ value w = fold_right Rmult 1 ps.
Proof.
  intros Hr.
  destruct (importance_product bresenham g s Hr state measured_distances)
    as (expected & ps & w & Hexp & Hlen & Hps & Himp & Hval & _).
  exists expected, ps, w. repeat split; auto.
  apply Forall2_length in Hps. rewrite <- Hps, length_combine, Hlen.
  apply Nat.min_id.
Qed.

Lemma importance_is_product_witness :
  exists expected ps w,
    shoot_rays Bresenham.bresenham (one_obstacle 3 5 3 1) (sensor_of 100)
      (1, 1, 0) (length [70; 100; 3]) = Ok expected
    /\ length expected = length [70; 100; 3]
    /\ Forall2 (fun em p =>
                  LidarSensor.lookup_prob (sensor_of 100) (fst em) (snd em) = Ok p)
         (combine expected [70; 100; 3]) ps
    /\ length ps = length [70; 100; 3]
    /\ importance Bresenham.bresenham (one_obstacle 3 5 3 1) (sensor_of 100)
         (1, 1, 0) [70; 100; 3] = Ok w
    /\ value w = fold_right Rmult 1 ps.
Proof.
  apply (importance_is_product Bresenham.bresenham (one_obstacle 3 5 3 1)
           (sensor_of 100) (1, 1, 0) [70; 100; 3]).
  simpl. lra.
Defined.

(** ** Normalized weights *)

(** C1. At an empty measurement vector, with one candidate, the code does
    not return the weight vector the claim describes: the raw weight is the
    Python int 1, the array of weights has an integer dtype, and the
    division in place raises TypeError. *)
Lemma sensor_fusion_empty_measurements :
  importance Bresenham.bresenham (free_grid 3 3) (sensor_of 100) (1, 1, 0) []
  = Ok (PyInt 1)
  /\ sensor_fusion Bresenham.bresenham (free_grid 3 3) (sensor_of 100)
       [(1, 1, 0)] [] = Raise TypeError.
Proof. split; reflexivity. Qed.

Lemma np_array_float (raw : list pynum) :
  Forall (fun w => is_int w = false) raw -> dt (np_array raw) = float64.
Proof.
  intros Hraw. unfold np_array. simpl.
  destruct Hraw as [ | w raw Hw _]; [ reflexivity | ].
  simpl. now rewrite Hw.
Qed.

Lemma np_sum_total (raw : list pynum) :
  np_sum (np_array raw) = total (map value raw).
Proof. unfold np_sum. simpl. rewrite fold_left_Rplus. lra. Qed.

(** X22. Floats read as reals: for a sensor with [max_range > 0], a list
    of [n >= 1] candidates and [k >= 1] measurements, [sensor_fusion]
    returns, in the order of the candidates, each raw importance weight
    divided by the sum of all of them: [n] entries, all [>= 0], of sum 1.
    In doubles the raw weights can all underflow to 0.0, and the code then
    divides 0 by 0. *)
Theorem sensor_fusion_distribution
  (bresenham : Z -> Z -> Z -> Z -> list (Z * Z)) (g : Grid) (s : LidarSensor.t)
  (samples : list State) (measured_distances : list R) :
  0 < LidarSensor._max_range s ->
  samples <> [] ->
  measured_distances <> [] ->
  exists raw ws,
    Forall2 (fun state w =>
               importance bresenham g s state measured_distances = Ok w)
      samples raw
    /\ sensor_fusion bresenham g s samples measured_distances = Ok ws
    /\ ws = map (fun w => value w / total (map value raw)) raw
    /\ length ws = length samples
    /\ Forall (fun w => 0 <= w) ws
    /\ total ws = 1.
Proof.
  intros Hr Hsamples Hmeasured.
  assert (Hnz : LidarSensor._max_range s <> 0) by lra.
  destruct (mapM_total
              (fun state => importance bresenham g s state measured_distances)
              (fun w => is_int w = false /\ 0 < value w) samples)
    as (raw & Hraw & Hlen & Hgood).
  { intros state _.
    destruct (importance_product bresenham g s Hnz state measured_distances)
      as (_ & _ & w & _ & _ & _ & Himp & _ & Hfloat & Hpos).
    exists w. auto. }
  assert (Hfloat : Forall (fun w => is_int w = false) raw)
    by (apply Forall_impl with (2 := Hgood); tauto).
  assert (Hpos : Forall (fun p => 0 < p) (map value raw)).
  { apply Forall_map. apply Forall_impl with (2 := Hgood). tauto. }
  assert (Hsum : 0 < total (map value raw)).
  { apply total_pos; [ | exact Hpos ].
    destruct raw, samples; simpl in *; congruence. }
  exists raw, (map (fun w => value w / total (map value raw)) raw).
  split; [ now apply mapM_Forall2 | ].
  split.
  { unfold sensor_fusion. rewrite Hraw. simpl.
    unfold itruediv. rewrite (np_array_float raw Hfloat). simpl.
    rewrite np_sum_total, map_map. reflexivity. }
  split; [ reflexivity | ].
  split; [ now rewrite length_map | ].
  split.
  - apply Forall_map. apply Forall_impl with (2 := Hgood).
    intros w [_ Hw]. apply Rlt_le. apply Rdiv_lt_0_compat; assumption.
  - rewrite <- (map_map value (fun v => v / total (map value raw))).
    rewrite total_scaled. field. lra.
Qed.

Lemma sensor_fusion_distribution_witness :
  exists raw ws,
    Forall2 (fun state w =>
               importance Bresenham.bresenham (one_obstacle 3 5 3 1)
                 (sensor_of 100) state [70; 100; 3] = Ok w)
      [(1, 1, 0); (2, 1, PI)] raw
    /\ sensor_fusion Bresenham.bresenham (one_obstacle 3 5 3 1) (sensor_of 100)
         [(1, 1, 0); (2, 1, PI)] [70; 100; 3] = Ok ws
    /\ ws = map (fun w => value w / total (map value raw)) raw
    /\ length ws = length [(1, 1, 0); (2, 1, PI)]
    /\ Forall (fun w => 0 <= w) ws
    /\ total ws = 1.
Proof.
  apply (sensor_fusion_distribution Bresenham.bresenham (one_obstacle 3 5 3 1)
           (sensor_of 100) [(1, 1, 0); (2, 1, PI)] [70; 100; 3]).
  - simpl. lra.
  - discriminate.
  - discriminate.
Defined.

(** * Further properties of the sensor-fusion notebook *)

(** ** The fan of rays *)

Lemma py_mod_range (a b : R) : 0 < b -> 0 <= py_mod a b < b.
Proof.
  intros Hb. unfold py_mod.
  assert (Hf := Zfloor_bound (a / b)).
  assert (Ha : a = a / b * b) by (field; lra).
  destruct Hf as [Hlo Hhi].
  apply (Rmult_le_compat_r b) in Hlo; [ | lra ].
  apply (Rmult_lt_compat_r b) in Hhi; [ | lra ].
  rewrite <- Ha in Hlo, Hhi. lra.
Qed.

Lemma cos_sin_period_Z (x : R) (n : Z) :
  cos (x + 2 * IZR n * PI) = cos x /\ sin (x + 2 * IZR n * PI) = sin x.
Proof.
  destruct (Z_le_gt_dec 0 n) as [Hn | Hn].
  - rewrite <- (Z2Nat.id n Hn), <- INR_IZR_INZ.
    split; [ apply cos_period | apply sin_period ].
  - assert (Hm : (0 <= - n)%Z) by lia.
    assert (Hx : x = x + 2 * IZR n * PI + 2 * INR (Z.to_nat (- n)) * PI).
    { rewrite INR_IZR_INZ, (Z2Nat.id _ Hm), opp_IZR. lra. }
    split.
    + rewrite Hx at 2. now rewrite cos_period.
    + rewrite Hx at 2. now rewrite sin_period.
Qed.

Lemma py_mod_direction (a : R) :
  cos (py_mod a (2 * PI)) = cos a /\ sin (py_mod a (2 * PI)) = sin a.
Proof.
  unfold py_mod.
  replace (a - IZR (Zfloor (a / (2 * PI))) * (2 * PI))
    with (a + 2 * IZR (- Zfloor (a / (2 * PI))) * PI)
    by (rewrite opp_IZR; lra).
  apply cos_sin_period_Z.
Qed.

Lemma radians_bearing (k i : nat) :
  k <> 0%nat -> radians (INR i * (360 / INR k)) = 2 * PI * INR i / INR k.
Proof.
  intros Hk. unfold radians. field. now apply not_0_INR.
Qed.

(** X1. [shoot_rays] returns one expected distance per ray, in order: the
    distance of ray [i] is the one [get_distance] finds at the angle
    [ray_angle theta k i], which lies in [0, 2 * PI) and points in the
    direction [theta + 2 * PI * i / k]. *)
Theorem shoot_rays_fan
  (bresenham : Z -> Z -> Z -> Z -> list (Z * Z)) (g : Grid) (s : LidarSensor.t)
  (x y theta : R) (k : nat) :
  exists ds,
    shoot_rays bresenham g s (x, y, theta) k = Ok ds
    /\ Forall2
         (fun i d =>
            0 <= ray_angle theta k i < 2 * PI
            /\ cos (ray_angle theta k i) = cos (theta + 2 * PI * INR i / INR k)
            /\ sin (ray_angle theta k i) = sin (theta + 2 * PI * INR i / INR k)
            /\ exists loc,
                 get_distance bresenham g s x y (ray_angle theta k i)
                 = Ok (d, loc))
         (seq 0 k) ds.
Proof.
  destruct (shoot_rays_total bresenham g s (x, y, theta) k) as (ds & Hds & _).
  exists ds. split; [ exact Hds | ].
  unfold shoot_rays in Hds. apply mapM_Forall2 in Hds.
  apply Forall2_impl with (2 := Hds). clear Hds. intros i d Hd.
  destruct (Nat.eq_dec k 0) as [-> | Hk].
  - exfalso. unfold py_div in Hd. simpl in Hd.
    destruct (Req_dec_T 0 0); [ discriminate | contradiction ].
  - rewrite py_div_ok in Hd by now apply not_0_INR. simpl in Hd.
    fold (ray_angle theta k i) in Hd.
    assert (H2pi : 0 < 2 * PI) by (generalize PI_RGT_0; lra).
    split; [ now apply py_mod_range | ].
    unfold ray_angle at 1 2. rewrite <- (radians_bearing k i Hk).
    destruct (py_mod_direction (theta + radians (INR i * (360 / INR k))))
      as [Hc Hs].
    split; [ exact Hc | ]. split; [ exact Hs | ].
    destruct (get_distance bresenham g s x y (ray_angle theta k i))
      as [[d' loc] | e]; simpl in Hd; [ | discriminate ].
    injection Hd as <-. now exists loc.
Qed.

Lemma mapM_pointwise {A B} (f : A -> result B) (h : A -> B) (l : list A) :
  (forall a, In a l -> f a = Ok (h a)) -> mapM f l = Ok (map h l).
Proof.
  induction l as [ | a l IH]; intros Hf; [ reflexivity | ].
  simpl. rewrite (Hf a (or_introl eq_refl)). simpl.
  rewrite IH by (intros a' Ha'; apply Hf; now right). reflexivity.
Qed.

Lemma map_const_repeat {A B} (b : B) (l : list A) :
  map (fun _ => b) l = repeat b (length l).
Proof. induction l as [ | a l IH]; simpl; [ reflexivity | now rewrite IH ]. Qed.

Lemma get_distance_free_grid
  (bresenham : Z -> Z -> Z -> Z -> list (Z * Z)) (g : Grid) (s : LidarSensor.t)
  (x y angle : R) :
  (forall i j, cell g i j <> 1%Z) ->
  get_distance bresenham g s x y angle
  = Ok (LidarSensor.max_range s,
        (x + LidarSensor.max_range s * cos angle,
         y + LidarSensor.max_range s * sin angle)).
Proof.
  intros Hfree. rewrite get_distance_walk. apply walk_traversed_free.
  intros c _. apply Hfree.
Qed.

Lemma shoot_rays_without_obstacle
  (bresenham : Z -> Z -> Z -> Z -> list (Z * Z)) (g : Grid) (s : LidarSensor.t)
  (state : State) (k : nat) :
  (forall i j, cell g i j <> 1%Z) ->
  shoot_rays bresenham g s state k = Ok (repeat (LidarSensor.max_range s) k).
Proof.
  intros Hfree. destruct state as [[x y] theta]. unfold shoot_rays.
  replace (repeat (LidarSensor.max_range s) k)
    with (map (fun _ : nat => LidarSensor.max_range s) (seq 0 k))
    by (rewrite map_const_repeat, length_seq; reflexivity).
  apply mapM_pointwise. intros i Hi.
  assert (Hk : INR k <> 0).
  { apply not_0_INR. intros ->. simpl in Hi. contradiction. }
  rewrite (py_div_ok _ _ Hk). simpl.
  rewrite (get_distance_free_grid bresenham g s _ _ _ Hfree). reflexivity.
Qed.

(** X2. On a grid without occupied cells [shoot_rays] returns [k] times
    [max_range], whatever the state, so that [importance] does not depend
    on the state. *)
Theorem shoot_rays_free_grid
  (bresenham : Z -> Z -> Z -> Z -> list (Z * Z)) (g : Grid) (s : LidarSensor.t)
  (state : State) (k : nat) :
  (forall i j, cell g i j <> 1%Z) ->
  shoot_rays bresenham g s state k = Ok (repeat (LidarSensor.max_range s) k)
  /\ forall state' measured,
       importance bresenham g s state measured
       = importance bresenham g s state' measured.
Proof.
  intros Hfree. split.
  - now apply shoot_rays_without_obstacle.
  - intros state' measured. unfold importance.
    now rewrite !shoot_rays_without_obstacle.
Qed.

Lemma shoot_rays_free_grid_witness :
  shoot_rays Bresenham.bresenham (free_grid 3 3) (sensor_of 100) (1, 1, 0) 4
  = Ok [100; 100; 100; 100]
  /\ forall state' measured,
       importance Bresenham.bresenham (free_grid 3 3) (sensor_of 100)
         (1, 1, 0) measured
       = importance Bresenham.bresenham (free_grid 3 3) (sensor_of 100)
           state' measured.
Proof.
  apply (shoot_rays_free_grid Bresenham.bresenham (free_grid 3 3) (sensor_of 100)
           (1, 1, 0) 4).
  intros i j. discriminate.
Defined.

(** ** Edge cases and shape of the weights *)

Section Fusion.

Variable bresenham : Z -> Z -> Z -> Z -> list (Z * Z).
Variables (g : Grid) (s : LidarSensor.t).

Lemma sensor_fusion_of_raw (samples : list State) (measured : list R)
  (raw : list pynum) :
  mapM (fun state => importance bresenham g s state measured) samples = Ok raw ->
  Forall (fun w => is_int w = false) raw ->
  sensor_fusion bresenham g s samples measured
  = Ok (map (fun w => value w / total (map value raw)) raw).
Proof.
  intros Hraw Hfloat. unfold sensor_fusion. rewrite Hraw. simpl.
  unfold itruediv. rewrite (np_array_float raw Hfloat). simpl.
  rewrite np_sum_total, map_map. reflexivity.
Qed.

Lemma raw_weights (samples : list State) (measured : list R) :
  0 < LidarSensor._max_range s -> measured <> [] ->
  exists raw,
    mapM (fun state => importance bresenham g s state measured) samples = Ok raw
    /\ length raw = length samples
    /\ Forall (fun w => is_int w = false /\ 0 < value w) raw.
Proof.
  intros Hr Hmeasured.
  assert (Hnz : LidarSensor._max_range s <> 0) by lra.
  apply mapM_total. intros state _.
  destruct (importance_product bresenham g s Hnz state measured)
    as (_ & _ & w & _ & _ & _ & Himp & _ & Hfloat & Hpos).
  exists w. auto.
Qed.

Lemma importance_no_measurement (state : State) :
  importance bresenham g s state [] = Ok (PyInt 1).
Proof. destruct state as [[x y] theta]. reflexivity. Qed.

(** X3. With no candidate [sensor_fusion] returns the empty vector,
    whatever the measurements; with candidates and an empty measurement
    vector it raises TypeError. *)
Theorem sensor_fusion_empty_inputs :
  (forall measured, sensor_fusion bresenham g s [] measured = Ok [])
  /\ (forall samples,
         samples <> [] ->
         sensor_fusion bresenham g s samples [] = Raise TypeError).
Proof.
  split; [ reflexivity | ].
  intros samples Hne. unfold sensor_fusion.
  rewrite (mapM_pointwise _ (fun _ => PyInt 1))
    by (intros state _; apply importance_no_measurement).
  destruct samples as [ | state samples]; [ contradiction | ].
  simpl bind. unfold itruediv, np_array. cbn [dt map forallb is_int andb].
  replace (forallb is_int (map (fun _ : State => PyInt 1) samples)) with true;
    [ reflexivity | ].
  symmetry. apply forallb_forall. intros w Hw.
  apply in_map_iff in Hw. destruct Hw as (_ & <- & _). reflexivity.
Qed.

Lemma importance_zero_range (state : State) (measured : list R) :
  LidarSensor._max_range s = 0 -> measured <> [] ->
  importance bresenham g s state measured = Raise ZeroDivisionError.
Proof.
  intros Hz Hne. unfold importance.
  destruct (shoot_rays_total bresenham g s state (length measured))
    as (expected & Hexp & Hlen & _).
  rewrite Hexp. simpl.
  destruct expected as [ | ed expected], measured as [ | md measured];
    simpl in Hlen; try congruence.
  simpl. now rewrite lookup_prob_zero_range.
Qed.

(** X4. With a [max_range] of zero, [importance] raises ZeroDivisionError
    as soon as there is one measurement, and [sensor_fusion] passes the
    exception on as soon as there is one candidate as well. *)
Theorem zero_range_raises (samples : list State) (measured : list R) :
  LidarSensor._max_range s = 0 ->
  measured <> [] ->
  (forall state,
      importance bresenham g s state measured = Raise ZeroDivisionError)
  /\ (samples <> [] ->
      sensor_fusion bresenham g s samples measured = Raise ZeroDivisionError).
Proof.
  intros Hz Hne. split.
  - intros state. now apply importance_zero_range.
  - intros Hsamples. destruct samples as [ | state samples]; [ contradiction | ].
    unfold sensor_fusion. simpl.
    now rewrite importance_zero_range.
Qed.

(** X5. For a sensor with [max_range > 0], candidates and measurements not
    empty, every normalized weight is strictly positive, and the weights
    are ordered as the raw importance weights are: candidate [i] has a
    weight at most that of candidate [j] exactly when its importance is at
    most that of [j]. *)
Theorem sensor_fusion_keeps_order (samples : list State) (measured : list R) :
  0 < LidarSensor._max_range s ->
  samples <> [] ->
  measured <> [] ->
  exists raw ws,
    Forall2 (fun state w => importance bresenham g s state measured = Ok w)
      samples raw
    /\ sensor_fusion bresenham g s samples measured = Ok ws
    /\ Forall (fun w => 0 < w) ws
    /\ forall i j,
         (i < length samples)%nat -> (j < length samples)%nat ->
         (nth i ws 0 <= nth j ws 0
          <-> value (nth i raw (PyInt 0)) <= value (nth j raw (PyInt 0))).
Proof.
  intros Hr Hsamples Hmeasured.
  destruct (raw_weights samples measured Hr Hmeasured)
    as (raw & Hraw & Hlen & Hgood).
  assert (Hfloat : Forall (fun w => is_int w = false) raw)
    by (apply Forall_impl with (2 := Hgood); tauto).
  assert (Hsum : 0 < total (map value raw)).
  { apply total_pos.
    - destruct raw, samples; simpl in *; congruence.
    - apply Forall_map. apply Forall_impl with (2 := Hgood). tauto. }
  set (S := total (map value raw)) in *.
  exists raw, (map (fun w => value w / S) raw).
  split; [ now apply mapM_Forall2 | ].
  split; [ now apply sensor_fusion_of_raw | ].
  split.
  - apply Forall_map. apply Forall_impl with (2 := Hgood).
    intros w [_ Hw]. now apply Rdiv_lt_0_compat.
  - intros i j Hi Hj. rewrite <- Hlen in Hi, Hj.
    assert (Hnth : forall n, (n < length raw)%nat ->
              nth n (map (fun w => value w / S) raw) 0
              = value (nth n raw (PyInt 0)) / S).
    { intros n Hn.
      rewrite (nth_indep _ 0 (value (PyInt 0) / S)) by now rewrite length_map.
      apply (map_nth (fun w => value w / S)). }
    rewrite (Hnth i Hi), (Hnth j Hj). unfold Rdiv.
    assert (HS : 0 < / S) by now apply Rinv_0_lt_compat.
    split; intros Hle.
    + apply Rmult_le_reg_r with (/ S); assumption.
    + apply Rmult_le_compat_r; [ lra | assumption ].
Qed.

Lemma total_repeat (v : R) (n : nat) : total (repeat v n) = INR n * v.
Proof.
  induction n as [ | n IH]; [ simpl; lra | ].
  change (total (repeat v (Datatypes.S n))) with (v + total (repeat v n)).
  rewrite IH, S_INR. lra.
Qed.

(** X6. Floats read as reals: on a grid without occupied cells, a sensor
    with [max_range > 0] and a measurement vector that is not empty give
    every candidate the same raw weight, which is positive, and so every
    one of [n >= 1] candidates the weight [1 / n].  In doubles that raw
    weight can underflow to 0.0, and the code then divides 0 by 0. *)
Theorem sensor_fusion_free_grid (samples : list State) (measured : list R) :
  0 < LidarSensor._max_range s ->
  samples <> [] ->
  measured <> [] ->
  (forall i j, cell g i j <> 1%Z) ->
  exists w0,
    (forall state, importance bresenham g s state measured = Ok w0)
    /\ 0 < value w0
    /\ sensor_fusion bresenham g s samples measured
       = Ok (repeat (1 / INR (length samples)) (length samples)).
Proof.
  intros Hr Hsamples Hmeasured Hfree.
  assert (Hnz : LidarSensor._max_range s <> 0) by lra.
  destruct samples as [ | s0 samples']; [ contradiction | ].
  set (samples := s0 :: samples') in *.
  destruct (importance_product bresenham g s Hnz s0 measured)
    as (_ & _ & w0 & _ & _ & _ & Hw0 & _ & Hfloat & Hpos).
  specialize (Hfloat Hmeasured). specialize (Hpos Hr).
  assert (Hsame : forall state,
             importance bresenham g s state measured = Ok w0).
  { intros state. rewrite <- Hw0. unfold importance.
    now rewrite !shoot_rays_without_obstacle. }
  exists w0. split; [ exact Hsame | ]. split; [ exact Hpos | ].
  rewrite (sensor_fusion_of_raw samples measured (map (fun _ => w0) samples)).
  - rewrite (map_const_repeat w0 samples).
    rewrite (map_repeat _ _ value), total_repeat, map_repeat.
    do 2 f_equal. field.
    split; first [ lra | apply not_0_INR; discriminate ].
  - apply mapM_pointwise. intros state _. apply Hsame.
  - apply Forall_map. apply Forall_forall. intros state _. exact Hfloat.
Qed.

End Fusion.

Lemma sensor_fusion_empty_inputs_witness :
  sensor_fusion Bresenham.bresenham (one_obstacle 3 5 3 1) (sensor_of 100)
    [(1, 1, 0); (2, 1, PI)] [] = Raise TypeError.
Proof.
  apply (sensor_fusion_empty_inputs Bresenham.bresenham (one_obstacle 3 5 3 1)
           (sensor_of 100)).
  discriminate.
Defined.

Lemma zero_range_raises_witness :
  sensor_fusion Bresenham.bresenham (one_obstacle 3 5 3 1) (sensor_of 0)
    [(1, 1, 0); (2, 1, PI)] [70; 100] = Raise ZeroDivisionError.
Proof.
  apply (zero_range_raises Bresenham.bresenham (one_obstacle 3 5 3 1)
           (sensor_of 0) [(1, 1, 0); (2, 1, PI)] [70; 100]);
    (reflexivity || discriminate).
Defined.

Lemma sensor_fusion_keeps_order_witness :
  exists raw ws,
    Forall2 (fun state w =>
               importance Bresenham.bresenham (one_obstacle 3 5 3 1)
                 (sensor_of 100) state [70; 100] = Ok w)
      [(1, 1, 0); (2, 1, PI)] raw
    /\ sensor_fusion Bresenham.bresenham (one_obstacle 3 5 3 1) (sensor_of 100)
         [(1, 1, 0); (2, 1, PI)] [70; 100] = Ok ws
    /\ Forall (fun w => 0 < w) ws
    /\ forall i j,
         (i < 2)%nat -> (j < 2)%nat ->
         (nth i ws 0 <= nth j ws 0
          <-> value (nth i raw (PyInt 0)) <= value (nth j raw (PyInt 0))).
Proof.
  apply (sensor_fusion_keeps_order Bresenham.bresenham (one_obstacle 3 5 3 1)
           (sensor_of 100) [(1, 1, 0); (2, 1, PI)] [70; 100]).
  - simpl. lra.
  - discriminate.
  - discriminate.
Defined.

Lemma sensor_fusion_free_grid_witness :
  exists w0,
    (forall state,
        importance Bresenham.bresenham (free_grid 3 3) (sensor_of 100)
          state [70; 100] = Ok w0)
    /\ 0 < value w0
    /\ sensor_fusion Bresenham.bresenham (free_grid 3 3) (sensor_of 100)
         [(1, 1, 0); (2, 1, PI)] [70; 100]
       = Ok (repeat (1 / INR 2) 2).
Proof.
  apply (sensor_fusion_free_grid Bresenham.bresenham (free_grid 3 3)
           (sensor_of 100) [(1, 1, 0); (2, 1, PI)] [70; 100]).
  - simpl. lra.
  - discriminate.
  - discriminate.
  - intros i j. discriminate.
Defined.

(** ** Shape of the likelihood *)

Lemma exp_le (u v : R) : u <= v -> exp u <= exp v.
Proof.
  intros [Hlt | ->]; [ left; now apply exp_increasing | right; reflexivity ].
Qed.

Lemma norm_pdf_unit_closer (m e1 e2 : R) :
  Rabs (m - e1) <= Rabs (m - e2) -> norm_pdf m e2 1 <= norm_pdf m e1 1.
Proof.
  intros Habs. rewrite !norm_pdf_unit.
  apply Rsqr_le_abs_1 in Habs. unfold Rsqr in Habs.
  assert (Hc : 0 < / sqrt (2 * PI)).
  { apply Rinv_0_lt_compat, sqrt_lt_R0. generalize PI_RGT_0; lra. }
  unfold Rdiv at 1 3. apply Rmult_le_compat_r; [ lra | ].
  apply exp_le. lra.
Qed.

Lemma norm_pdf_unit_peak (m e : R) : norm_pdf m e 1 <= 1 / sqrt (2 * PI).
Proof.
  replace (1 / sqrt (2 * PI)) with (norm_pdf m m 1).
  - apply norm_pdf_unit_closer.
    replace (m - m) with 0 by lra. rewrite Rabs_R0. apply Rabs_pos.
  - rewrite norm_pdf_unit. replace (- ((m - m) * (m - m)) / 2) with 0 by lra.
    now rewrite exp_0.
Qed.

Lemma lookup_prob_bounds (s : LidarSensor.t) (ed md : R) :
  0 < LidarSensor._max_range s ->
  exists p, LidarSensor.lookup_prob s ed md = Ok p
            /\ 0.03 / LidarSensor._max_range s < p
               <= lookup_prob_max (LidarSensor._max_range s).
Proof.
  intros Hr. eexists. split; [ apply lookup_prob_ok; lra | ].
  assert (Hpos := norm_pdf_unit_pos md ed).
  assert (Hpeak := norm_pdf_unit_peak md ed).
  unfold lookup_prob_max.
  destruct (Req_dec_T md (LidarSensor._max_range s)); lra.
Qed.

(** X7. For a sensor with [max_range > 0] and a fixed measurement, an
    expected distance closer to the measurement never has a smaller
    likelihood: [lookup_prob] is largest where the two are equal, stays
    above [0.03 / max_range] and never exceeds
    [0.95 / sqrt (2 * PI) + 0.03 / max_range + 0.02]. *)
Theorem lookup_prob_closer_is_likelier (s : LidarSensor.t) (e1 e2 md : R) :
  0 < LidarSensor._max_range s ->
  Rabs (md - e1) <= Rabs (md - e2) ->
  exists p0 p1 p2,
    LidarSensor.lookup_prob s md md = Ok p0
    /\ LidarSensor.lookup_prob s e1 md = Ok p1
    /\ LidarSensor.lookup_prob s e2 md = Ok p2
    /\ 0.03 / LidarSensor._max_range s < p2
    /\ p2 <= p1
    /\ p1 <= p0
    /\ p0 <= lookup_prob_max (LidarSensor._max_range s).
Proof.
  intros Hr Hcloser.
  assert (Hnz : LidarSensor._max_range s <> 0) by lra.
  destruct (lookup_prob_bounds s md md Hr) as (p0 & Hp0 & _ & Hmax).
  destruct (lookup_prob_bounds s e1 md Hr) as (p1 & Hp1 & _ & _).
  destruct (lookup_prob_bounds s e2 md Hr) as (p2 & Hp2 & Hmin & _).
  exists p0, p1, p2. repeat split; auto.
  - rewrite lookup_prob_ok in Hp1, Hp2 by assumption.
    injection Hp1 as <-. injection Hp2 as <-.
    assert (Hle := norm_pdf_unit_closer md e1 e2 Hcloser). lra.
  - rewrite lookup_prob_ok in Hp0, Hp1 by assumption.
    injection Hp0 as <-. injection Hp1 as <-.
    assert (Hle : norm_pdf md e1 1 <= norm_pdf md md 1).
    { apply norm_pdf_unit_closer.
      replace (md - md) with 0 by lra. rewrite Rabs_R0. apply Rabs_pos. }
    lra.
Qed.

Lemma lookup_prob_closer_is_likelier_witness :
  exists p0 p1 p2,
    LidarSensor.lookup_prob (sensor_of 100) 70 70 = Ok p0
    /\ LidarSensor.lookup_prob (sensor_of 100) 71 70 = Ok p1
    /\ LidarSensor.lookup_prob (sensor_of 100) 100 70 = Ok p2
    /\ 0.03 / LidarSensor._max_range (sensor_of 100) < p2
    /\ p2 <= p1
    /\ p1 <= p0
    /\ p0 <= lookup_prob_max (LidarSensor._max_range (sensor_of 100)).
Proof.
  apply (lookup_prob_closer_is_likelier (sensor_of 100) 71 100 70).
  - simpl. lra.
  - unfold Rabs. destruct (Rcase_abs (70 - 71)), (Rcase_abs (70 - 100)); lra.
Defined.

Lemma product_bounds (a b : R) (ps : list R) :
  0 <= a ->
  Forall (fun p => a <= p <= b) ps ->
  a ^ length ps <= product ps <= b ^ length ps.
Proof.
  intros Ha. induction 1 as [ | p ps [Hlo Hhi] _ IH]; simpl; [ lra | ].
  destruct IH as [IHlo IHhi].
  assert (Hpow : 0 <= a ^ length ps) by now apply pow_le.
  split.
  - apply Rmult_le_compat; assumption.
  - apply Rmult_le_compat; lra.
Qed.

(** X8. For a sensor with [max_range > 0], the importance of a state
    against [k] measurements lies between [(0.03 / max_range) ^ k] and
    [(0.95 / sqrt (2 * PI) + 0.03 / max_range + 0.02) ^ k]: it is never
    zero. *)
Theorem importance_bounds
  (bresenham : Z -> Z -> Z -> Z -> list (Z * Z)) (g : Grid) (s : LidarSensor.t)
  (state : State) (measured : list R) :
  0 < LidarSensor._max_range s ->
  exists w,
    importance bresenham g s state measured = Ok w
    /\ 0 < (0.03 / LidarSensor._max_range s) ^ length measured
    /\ (0.03 / LidarSensor._max_range s) ^ length measured <= value w
    /\ value w <= lookup_prob_max (LidarSensor._max_range s) ^ length measured.
Proof.
  intros Hr.
  assert (Hnz : LidarSensor._max_range s <> 0) by lra.
  destruct (importance_product bresenham g s Hnz state measured)
    as (expected & ps & w & _ & Hlen & Hps & Himp & Hval & _).
  exists w. split; [ exact Himp | ].
  assert (Hfloor : 0 < 0.03 / LidarSensor._max_range s)
    by (apply Rdiv_lt_0_compat; lra).
  split; [ now apply pow_lt | ].
  assert (Hk : length ps = length measured).
  { apply Forall2_length in Hps. rewrite <- Hps, length_combine, Hlen.
    apply Nat.min_id. }
  rewrite Hval, <- Hk. apply product_bounds; [ lra | ].
  clear Hk Hval Himp.
  induction Hps as [ | [ed md] p pairs ps Hp _ IH]; constructor; [ | exact IH ].
  destruct (lookup_prob_bounds s ed md Hr) as (p' & Hp' & Hlo & Hhi).
  simpl in Hp. rewrite Hp' in Hp. injection Hp as <-. lra.
Qed.

Lemma importance_bounds_witness :
  exists w,
    importance Bresenham.bresenham (one_obstacle 3 5 3 1) (sensor_of 100)
      (1, 1, 0) [70; 100; 3] = Ok w
    /\ 0 < (0.03 / LidarSensor._max_range (sensor_of 100)) ^ length [70; 100; 3]
    /\ (0.03 / LidarSensor._max_range (sensor_of 100)) ^ length [70; 100; 3]
       <= value w
    /\ value w
       <= lookup_prob_max (LidarSensor._max_range (sensor_of 100))
          ^ length [70; 100; 3].
Proof.
  apply (importance_bounds Bresenham.bresenham (one_obstacle 3 5 3 1)
           (sensor_of 100) (1, 1, 0) [70; 100; 3]).
  simpl. lra.
Defined.

(** ** What a ray reports *)

Lemma traversed_inbounds (g : Grid) (cells : list (Z * Z)) (c : Z * Z) :
  In c (traversed g cells) -> In c cells /\ inbounds g (fst c) (snd c) = true.
Proof.
  induction cells as [ | c0 cells IH]; simpl; [ contradiction | ].
  destruct (inbounds g (fst c0) (snd c0)) eqn:Hin; [ | contradiction ].
  intros [<- | Hc]; [ auto | ].
  destruct (IH Hc). auto.
Qed.

(** The loop either passes every traversed cell, all free, or stops at the
    first occupied one. *)
Lemma walk_cases (g : Grid) (x y : R) (cells : list (Z * Z)) (dist : R)
  (loc : R * R) :
  ((forall c, In c (traversed g cells) -> ~ occupied g c)
   /\ walk g x y cells dist loc = Ok (dist, loc))
  \/ (exists pre c post,
         cells = pre ++ c :: post
         /\ (forall c', In c' pre ->
                        inbounds g (fst c') (snd c') = true /\ ~ occupied g c')
         /\ inbounds g (fst c) (snd c) = true
         /\ occupied g c
         /\ walk g x y cells dist loc
            = Ok (norm2 (x - IZR (fst c)) (y - IZR (snd c)),
                  (IZR (fst c), IZR (snd c)))).
Proof.
  induction cells as [ | c cells IH].
  - left. split; [ intros c [] | reflexivity ].
  - destruct (inbounds g (fst c) (snd c)) eqn:Hin.
    + destruct (Z.eq_dec (cell g (snd c) (fst c)) 1) as [Hocc | Hfree].
      * right. exists [], c, cells.
        split; [ reflexivity | ]. split; [ intros c' [] | ].
        split; [ exact Hin | ]. split; [ exact Hocc | now apply walk_hit ].
      * rewrite (walk_free _ _ _ _ _ _ _ Hin Hfree).
        destruct IH as [[Hnone Hrun] | (pre & c1 & post & -> & Hpre & Hin1 & Hocc1 & Hrun)].
        -- left. split; [ | exact Hrun ].
           simpl. rewrite Hin. intros c' [<- | Hc']; auto.
        -- right. exists (c :: pre), c1, post.
           split; [ reflexivity | ].
           split; [ intros c' [<- | Hc']; [ auto | now apply Hpre ] | auto ].
    + left. split; [ | now apply walk_out ].
      simpl. rewrite Hin. intros c' [].
Qed.

(** X9. [get_distance] never raises.  Either no traversed cell is
    occupied and it returns [max_range] with the end point of the ray, or
    it returns the first occupied cell of the enumeration, which lies in
    bounds, with the Euclidean distance from [(x, y)] to that cell. *)
Theorem get_distance_cases
  (bresenham : Z -> Z -> Z -> Z -> list (Z * Z)) (g : Grid) (s : LidarSensor.t)
  (x y angle : R) :
  let x2 := x + LidarSensor.max_range s * cos angle in
  let y2 := y + LidarSensor.max_range s * sin angle in
  let cells := bresenham (py_int x) (py_int y) (py_int x2) (py_int y2) in
  ((forall c, In c (traversed g cells) -> ~ occupied g c)
   /\ get_distance bresenham g s x y angle
      = Ok (LidarSensor.max_range s, (x2, y2)))
  \/ (exists pre c post,
         cells = pre ++ c :: post
         /\ (forall c', In c' pre ->
                        inbounds g (fst c') (snd c') = true /\ ~ occupied g c')
         /\ inbounds g (fst c) (snd c) = true
         /\ occupied g c
         /\ get_distance bresenham g s x y angle
            = Ok (norm2 (x - IZR (fst c)) (y - IZR (snd c)),
                  (IZR (fst c), IZR (snd c)))).
Proof.
  intros x2 y2 cells. rewrite get_distance_walk. apply walk_cases.
Qed.

Lemma py_int_error (x : R) : Rabs (x - IZR (py_int x)) < 1.
Proof.
  unfold py_int. destruct (Rle_dec 0 x).
  - assert (H := Zfloor_bound x). apply Rabs_def1; lra.
  - assert (H := Zceil_bound x). apply Rabs_def1; lra.
Qed.

Lemma bresenham_starts_at_start : starts_at_start Bresenham.bresenham.
Proof.
  intros x0 y0 x1 y1. unfold Bresenham.bresenham.
  set (dx := Z.abs (x1 - x0)). set (dy := Z.abs (y1 - y0)).
  assert (Hdx : exists n, Z.to_nat (dx + 1) = Datatypes.S n).
  { exists (Z.to_nat dx). unfold dx. lia. }
  assert (Hdy : exists n, Z.to_nat (dy + 1) = Datatypes.S n).
  { exists (Z.to_nat dy). unfold dy. lia. }
  destruct Hdx as [n Hn], Hdy as [m Hm].
  destruct (dy <? dx)%Z; [ rewrite Hn | rewrite Hm ]; simpl Bresenham.steps;
    eexists; f_equal; f_equal; lia.
Qed.

Section StartCell.

Variable bresenham : Z -> Z -> Z -> Z -> list (Z * Z).
Hypothesis start_first : starts_at_start bresenham.
Variables (g : Grid) (s : LidarSensor.t) (x y angle : R).

(** X10. With a rasterizer that yields the start cell first, a pose whose
    cell is out of the grid gets [max_range] and the end point of the ray,
    without an exception. *)
Theorem get_distance_from_outside :
  inbounds g (py_int x) (py_int y) = false ->
  get_distance bresenham g s x y angle
  = Ok (LidarSensor.max_range s,
        (x + LidarSensor.max_range s * cos angle,
         y + LidarSensor.max_range s * sin angle)).
Proof.
  intros Hout. rewrite get_distance_walk.
  destruct (start_first (py_int x) (py_int y)
              (py_int (x + LidarSensor.max_range s * cos angle))
              (py_int (y + LidarSensor.max_range s * sin angle)))
    as [rest ->].
  now apply walk_out.
Qed.

(** X11. With a rasterizer that yields the start cell first, a pose whose
    own cell is occupied gets that cell as the location and the distance
    from [(x, y)] to the cell's integer coordinates, which is below
    [sqrt 2] and is 0 for a pose at integer coordinates. *)
Theorem get_distance_from_obstacle :
  inbounds g (py_int x) (py_int y) = true ->
  occupied g (py_int x, py_int y) ->
  exists d,
    get_distance bresenham g s x y angle
    = Ok (d, (IZR (py_int x), IZR (py_int y)))
    /\ d = sqrt ((x - IZR (py_int x)) * (x - IZR (py_int x))
                 + (y - IZR (py_int y)) * (y - IZR (py_int y)))
    /\ 0 <= d < sqrt 2
    /\ (x = IZR (py_int x) -> y = IZR (py_int y) -> d = 0).
Proof.
  intros Hin Hocc. eexists. split; [ | split; [ reflexivity | ] ].
  - rewrite get_distance_walk.
    destruct (start_first (py_int x) (py_int y)
                (py_int (x + LidarSensor.max_range s * cos angle))
                (py_int (y + LidarSensor.max_range s * sin angle)))
      as [rest ->].
    now rewrite (walk_hit g x y (py_int x, py_int y)).
  - assert (Hx := py_int_error x). assert (Hy := py_int_error y).
    apply Rabs_def2 in Hx, Hy.
    set (u := x - IZR (py_int x)) in *. set (v := y - IZR (py_int y)) in *.
    split; [ split | ].
    + apply sqrt_pos.
    + apply sqrt_lt_1_alt. nra.
    + intros Hu Hv. replace (u * u + v * v) with 0 by (unfold u, v; nra).
      apply sqrt_0.
Qed.

End StartCell.

Lemma get_distance_from_outside_witness :
  get_distance Bresenham.bresenham (free_grid 3 3) (sensor_of 2) 7 1 0
  = Ok (LidarSensor.max_range (sensor_of 2),
        (7 + LidarSensor.max_range (sensor_of 2) * cos 0,
         1 + LidarSensor.max_range (sensor_of 2) * sin 0)).
Proof.
  apply (get_distance_from_outside Bresenham.bresenham bresenham_starts_at_start
           (free_grid 3 3) (sensor_of 2) 7 1 0).
  rewrite (py_int_IZR 7), (py_int_IZR 1). reflexivity.
Defined.

Lemma get_distance_from_obstacle_witness :
  exists d,
    get_distance Bresenham.bresenham (one_obstacle 3 5 3 1) (sensor_of 2) 3 1 0
    = Ok (d, (IZR (py_int 3), IZR (py_int 1)))
    /\ d = sqrt ((3 - IZR (py_int 3)) * (3 - IZR (py_int 3))
                 + (1 - IZR (py_int 1)) * (1 - IZR (py_int 1)))
    /\ 0 <= d < sqrt 2
    /\ (3 = IZR (py_int 3) -> 1 = IZR (py_int 1) -> d = 0).
Proof.
  apply (get_distance_from_obstacle Bresenham.bresenham
           bresenham_starts_at_start (one_obstacle 3 5 3 1) (sensor_of 2) 3 1 0).
  - rewrite (py_int_IZR 3), (py_int_IZR 1). reflexivity.
  - rewrite (py_int_IZR 3), (py_int_IZR 1). reflexivity.
Defined.

(** ** Simulated measurements *)

Lemma measure_run (s : LidarSensor.t) (e p : R) (t : tape) :
  0 <= p < 1 ->
  LidarSensor.measure s e (Uniform p :: t) =
    if Rle_dec p 0.95 then normal e 1 t
    else if Rle_dec p 0.98 then LidarSensor._random_measure s t
    else Some (Ok (LidarSensor.max_range s), t).
Proof.
  intros Hp. unfold LidarSensor.measure, rbind. rewrite (rand_run p _ Hp).
  destruct (Rle_dec p 0.95); [ reflexivity | ].
  destruct (Rle_dec p 0.98); reflexivity.
Qed.

(** With [0 <= max_range < 2^31] a reading costs one draw in the failure
    branch and two in the others, and is never an exception. *)
Lemma measure_consumes (s : LidarSensor.t) (e : R) (t t' : tape)
  (out : result R) :
  0 <= LidarSensor._max_range s < 2147483648 ->
  LidarSensor.measure s e t = Some (out, t') ->
  exists r, out = Ok r
            /\ (length t' + 1 <= length t <= length t' + 2)%nat.
Proof.
  intros Hr Hrun.
  destruct (measure_first_draw s e t) as (p & t0 & -> & Hp);
    [ rewrite Hrun; discriminate | ].
  rewrite (measure_run s e p t0 Hp) in Hrun.
  destruct (Rle_dec p 0.95) as [Hhit | Hnot].
  - unfold normal in Hrun. destruct t0 as [ | [q | z | i] t1]; try discriminate.
    injection Hrun as <- <-. eexists. split; [ reflexivity | simpl; lia ].
  - destruct (Rle_dec p 0.98) as [Hrandom | Hfail].
    + rewrite random_measure_run in Hrun. cbv zeta in Hrun.
      assert (Hlo := py_int_succ_lower _ (proj1 Hr)).
      assert (Hhi := py_int_succ_fits _ Hr).
      destruct (Z.ltb_spec int_max
                  (py_int (LidarSensor._max_range s + 1) - 1)); [ lia | ].
      destruct (Z.ltb_spec (py_int (LidarSensor._max_range s + 1) - 1) 0);
        [ lia | ].
      destruct t0 as [ | [q | z | i] t1]; try discriminate.
      destruct ((0 <=? i)
                && (i <=? py_int (LidarSensor._max_range s + 1) - 1))%Z;
        [ | discriminate ].
      injection Hrun as <- <-. eexists. split; [ reflexivity | simpl; lia ].
    + injection Hrun as <- <-. eexists. split; [ reflexivity | simpl; lia ].
Qed.

Lemma measure_all_consumes (s : LidarSensor.t) (dists : list R) (t t' : tape)
  (out : result (list R)) :
  0 <= LidarSensor._max_range s < 2147483648 ->
  measure_all s dists t = Some (out, t') ->
  exists ms, out = Ok ms
             /\ length ms = length dists
             /\ (length t' + length dists <= length t
                 <= length t' + 2 * length dists)%nat.
Proof.
  intros Hr. revert t t' out.
  induction dists as [ | d dists IH]; intros t t' out Hrun.
  - injection Hrun as <- <-. exists []. simpl. repeat split; lia.
  - simpl in Hrun. unfold rbind in Hrun.
    destruct (LidarSensor.measure s d t) as [[o1 t1] | ] eqn:H1;
      [ | discriminate ].
    destruct (measure_consumes s d t t1 o1 Hr H1) as (m & -> & Hlen1).
    destruct (measure_all s dists t1) as [[o2 t2] | ] eqn:H2;
      [ | discriminate ].
    destruct (IH t1 t2 o2 H2) as (ms & -> & Hms & Hlen2).
    injection Hrun as <- <-. exists (m :: ms). simpl. repeat split; lia.
Qed.

(** X12. With [0 <= max_range < 2^31], so that [max_range + 1] fits the
    integer dtype of [randint], whenever [sense] returns it returns, with
    no exception, exactly [rays] readings, and it has consumed between
    [rays] and [2 * rays] random draws: one per reading of the failure
    branch, two per reading of the hit or random branch. *)
Theorem sense_readings
  (bresenham : Z -> Z -> Z -> Z -> list (Z * Z)) (g : Grid) (s : LidarSensor.t)
  (ground_truth_state : State) (rays : nat) (t t' : tape)
  (out : result (list R)) :
  0 <= LidarSensor._max_range s < 2147483648 ->
  sense bresenham g s ground_truth_state rays t = Some (out, t') ->
  exists ms, out = Ok ms
             /\ length ms = rays
             /\ (length t' + rays <= length t <= length t' + 2 * rays)%nat.
Proof.
  intros Hr Hrun. unfold sense in Hrun.
  destruct (shoot_rays_total bresenham g s ground_truth_state rays)
    as (dists & Hdists & Hlen & _).
  rewrite Hdists in Hrun.
  destruct (measure_all_consumes s dists t t' out Hr Hrun)
    as (ms & Hout & Hms & Hcons).
  exists ms. rewrite Hlen in Hms, Hcons. auto.
Qed.

Lemma sense_readings_witness :
  exists ms, Ok [100; 100 + 1 * 2] = Ok ms
             /\ length ms = 2%nat
             /\ (length [Uniform 0.5] + 2
                 <= length [Uniform 0.99; Uniform 0.5; Gauss 2; Uniform 0.5]
                 <= length [Uniform 0.5] + 2 * 2)%nat.
Proof.
  apply (sense_readings Bresenham.bresenham (free_grid 3 3) (sensor_of 100)
           (1, 1, 0) 2).
  - simpl. lra.
  - unfold sense. rewrite shoot_rays_without_obstacle by discriminate.
    cbn [repeat measure_all]. unfold rbind.
    rewrite measure_failure by lra.
    rewrite measure_hit by lra. reflexivity.
Defined.

(** * The measurement function of the non-linear least squares notebook *)

Import NonLinearLeastSquares.

Lemma norm2_scaled (x y : R) :
  x <> 0 -> norm2 x y = Rabs x * sqrt (1 + (y / x)²).
Proof.
  intros Hx. unfold norm2.
  replace (x * x + y * y) with (x² * (1 + (y / x)²))
    by (unfold Rsqr; field; assumption).
  rewrite sqrt_mult_alt by apply Rle_0_sqr.
  now rewrite sqrt_Rsqr_abs.
Qed.

Lemma sqrt_one_plus_sqr_pos (t : R) : 0 < sqrt (1 + t²).
Proof. apply sqrt_lt_R0. generalize (Rle_0_sqr t). lra. Qed.

Lemma norm2_axis (y : R) : norm2 0 y = Rabs y.
Proof.
  unfold norm2. replace (0 * 0 + y * y) with (y²) by (unfold Rsqr; lra).
  apply sqrt_Rsqr_abs.
Qed.

(** X13. [h] gives the polar coordinates of the state: the state is
    recovered from the range and the bearing as
    [(range * cos bearing, range * sin bearing)]; hence [h] is injective,
    two states with the same range and bearing being equal. *)
Theorem h_polar (x : Vec2) :
  (f_range x * cos (f_bearing x) = fst x
   /\ f_range x * sin (f_bearing x) = snd x)
  /\ forall x', h x = h x' -> x = x'.
Proof.
  assert (Hpolar : forall x : Vec2,
             f_range x * cos (f_bearing x) = fst x
             /\ f_range x * sin (f_bearing x) = snd x).
  { clear x. intros x.
    destruct x as [a b]. unfold f_range, f_bearing, arctan2. cbn [fst snd].
    destruct (Rlt_dec 0 a) as [Hpos | Hnpos].
    - rewrite norm2_scaled, cos_atan, sin_atan, Rabs_pos_eq by lra.
      assert (Hs := sqrt_one_plus_sqr_pos (b / a)).
      split; field; lra.
    - destruct (Rlt_dec a 0) as [Hneg | Hnneg].
      + assert (Hs := sqrt_one_plus_sqr_pos (b / a)).
        rewrite norm2_scaled, Rabs_left by lra.
        destruct (Rle_dec 0 b).
        * rewrite neg_cos, neg_sin, cos_atan, sin_atan. split; field; lra.
        * rewrite cos_minus, sin_minus, cos_PI, sin_PI, cos_atan, sin_atan.
          split; field; lra.
      + assert (Ha : a = 0) by lra. subst a. rewrite norm2_axis.
        destruct (Rlt_dec 0 b) as [Hb | Hnb].
        * rewrite cos_PI2, sin_PI2, Rabs_pos_eq by lra. lra.
        * destruct (Rlt_dec b 0) as [Hb | Hnb'].
          -- rewrite cos_neg, sin_neg, cos_PI2, sin_PI2, Rabs_left by lra. lra.
          -- assert (Hb : b = 0) by lra. subst b. rewrite Rabs_R0. lra. }
  split; [ apply Hpolar | ].
  intros x' Heq. unfold h in Heq. injection Heq as Hr Hb.
  destruct (Hpolar x) as [H0 H1]. destruct (Hpolar x') as [H0' H1'].
  destruct x as [a b], x' as [a' b']. cbn [fst snd] in *.
  rewrite Hr, Hb in H0, H1. f_equal; lra.
Qed.

Lemma h_polar_witness :
  (f_range (3, 4) * cos (f_bearing (3, 4)) = 3
   /\ f_range (3, 4) * sin (f_bearing (3, 4)) = 4)
  /\ ((3, 4) = (3, 4) :> Vec2).
Proof.
  destruct (h_polar (3, 4)) as [Hpolar Hinj].
  split; [ exact Hpolar | apply Hinj; reflexivity ].
Defined.

Lemma norm2_zero (a b : R) : norm2 a b = 0 <-> a = 0 /\ b = 0.
Proof.
  unfold norm2. split.
  - intros H0. apply sqrt_eq_0 in H0; [ | nra ]. split; nra.
  - intros [-> ->]. replace (0 * 0 + 0 * 0) with 0 by lra. apply sqrt_0.
Qed.

Lemma atan_sign (t : R) : (0 < t -> 0 < atan t) /\ (t <= 0 -> atan t <= 0).
Proof.
  split.
  - intros Ht. rewrite <- atan_0. now apply atan_increasing.
  - intros [Ht | ->]; [ | rewrite atan_0; lra ].
    rewrite <- atan_0. left. now apply atan_increasing.
Qed.

(** The three charts of [arctan2]. *)
Lemma arctan2_right (y x : R) : 0 < x -> arctan2 y x = atan (y / x).
Proof.
  intros Hx. unfold arctan2. destruct (Rlt_dec 0 x); [ reflexivity | lra ].
Qed.

Lemma atan_inv_neg (t : R) : t < 0 -> atan (/ t) = - (PI / 2) - atan t.
Proof.
  intros Ht.
  replace (/ t) with (- / (- t)) by (field; lra).
  rewrite atan_opp, atan_inv by lra. rewrite atan_opp. lra.
Qed.

Lemma arctan2_upper (y x : R) : 0 < y -> arctan2 y x = PI / 2 - atan (x / y).
Proof.
  intros Hy. unfold arctan2.
  destruct (Rlt_dec 0 x) as [Hpos | Hnpos].
  - replace (y / x) with (/ (x / y)) by (field; lra).
    apply atan_inv. now apply Rdiv_lt_0_compat.
  - destruct (Rlt_dec x 0) as [Hneg | Hnneg].
    + destruct (Rle_dec 0 y); [ | lra ].
      replace (y / x) with (/ (x / y)) by (field; lra).
      rewrite atan_inv_neg; [ lra | ].
      unfold Rdiv. assert (0 < / y) by now apply Rinv_0_lt_compat. nra.
    + assert (Hx : x = 0) by lra. subst x.
      destruct (Rlt_dec 0 y); [ | lra ].
      unfold Rdiv. rewrite Rmult_0_l, atan_0. lra.
Qed.

Lemma arctan2_lower (y x : R) : y < 0 -> arctan2 y x = - (PI / 2) - atan (x / y).
Proof.
  intros Hy. unfold arctan2.
  assert (Hinv : / y < 0) by now apply Rinv_lt_0_compat.
  destruct (Rlt_dec 0 x) as [Hpos | Hnpos].
  - replace (y / x) with (/ (x / y)) by (field; lra).
    apply atan_inv_neg. unfold Rdiv. nra.
  - destruct (Rlt_dec x 0) as [Hneg | Hnneg].
    + destruct (Rle_dec 0 y); [ lra | ].
      replace (y / x) with (/ (x / y)) by (field; lra).
      rewrite atan_inv; [ lra | ]. unfold Rdiv. nra.
    + assert (Hx : x = 0) by lra. subst x.
      destruct (Rlt_dec 0 y); [ lra | ]. destruct (Rlt_dec y 0); [ | lra ].
      unfold Rdiv. rewrite Rmult_0_l, atan_0. lra.
Qed.

(** X14. The range is never negative and is zero at the origin only; the
    bearing lies in [-PI, PI], and for [x[1] <> 0] it lies strictly inside
    and has the sign of [x[1]]. *)
Theorem h_codomain (x : Vec2) :
  0 <= f_range x
  /\ (f_range x = 0 <-> x = (0, 0))
  /\ - PI <= f_bearing x <= PI
  /\ (0 < snd x -> 0 < f_bearing x < PI)
  /\ (snd x < 0 -> - PI < f_bearing x < 0).
Proof.
  destruct x as [a b]. unfold f_range, f_bearing. cbn [fst snd].
  split; [ apply norm2_nonneg | ].
  split.
  { rewrite norm2_zero. split; [ intros [-> ->]; reflexivity | ].
    intros Heq. injection Heq as -> ->. auto. }
  assert (Hpi := PI_RGT_0).
  assert (Hupper : 0 < b -> 0 < arctan2 b a < PI).
  { intros Hb. rewrite arctan2_upper by assumption.
    assert (Hat := atan_bound (a / b)). lra. }
  assert (Hlower : b < 0 -> - PI < arctan2 b a < 0).
  { intros Hb. rewrite arctan2_lower by assumption.
    assert (Hat := atan_bound (a / b)). lra. }
  split; [ | split; assumption ].
  destruct (Rtotal_order b 0) as [Hneg | [-> | Hpos]].
  - specialize (Hlower Hneg). lra.
  - unfold arctan2. destruct (Rlt_dec 0 a).
    + unfold Rdiv. rewrite Rmult_0_l, atan_0. lra.
    + destruct (Rlt_dec a 0).
      * destruct (Rle_dec 0 0); [ | lra ].
        unfold Rdiv. rewrite Rmult_0_l, atan_0. lra.
      * destruct (Rlt_dec 0 0); [ lra | ]. destruct (Rlt_dec 0 0); lra.
  - specialize (Hupper Hpos). lra.
Qed.

Lemma h_codomain_witness :
  0 < f_bearing (3, 4) < PI /\ - PI < f_bearing (-3, -4) < 0.
Proof.
  split.
  - apply (h_codomain (3, 4)). simpl. lra.
  - apply (h_codomain (-3, -4)). simpl. lra.
Defined.

(** X15. Away from the origin the matrix of [jacobian_of_h] has a unit
    first row, orthogonal rows and the determinant [1 / f_range x], which
    is positive: the linearization of [h] is invertible. *)
Theorem jacobian_of_h_invertible (x : Vec2) :
  x <> (0, 0) ->
  let '((j00, j01), (j10, j11)) := jacobian_of_h x in
  j00 * j00 + j01 * j01 = 1
  /\ j00 * j10 + j01 * j11 = 0
  /\ j00 * j11 - j01 * j10 = 1 / f_range x
  /\ 0 < j00 * j11 - j01 * j10.
Proof.
  destruct x as [a b]. intros Hx. unfold jacobian_of_h, f_range. cbn [fst snd].
  assert (Hn : norm2 a b <> 0).
  { rewrite norm2_zero. intros [-> ->]. now apply Hx. }
  assert (Hpos : 0 < norm2 a b) by (generalize (norm2_nonneg a b); lra).
  assert (Hsq : norm2 a b * norm2 a b = a * a + b * b).
  { unfold norm2. apply sqrt_sqrt. nra. }
  assert (Hq : a ^ 2 + b ^ 2 <> 0) by (simpl; nra).
  assert (Hdet : a / norm2 a b * (a / (a ^ 2 + b ^ 2))
                 - b / norm2 a b * (- b / (a ^ 2 + b ^ 2)) = 1 / norm2 a b).
  { field_simplify_eq; [ ring | auto ]. }
  repeat split.
  - field_simplify_eq; [ | assumption ]. nra.
  - field. auto.
  - exact Hdet.
  - rewrite Hdet. apply Rdiv_lt_0_compat; lra.
Qed.

Lemma jacobian_of_h_invertible_witness :
  let '((j00, j01), (j10, j11)) := jacobian_of_h (3, 3) in
  j00 * j00 + j01 * j01 = 1
  /\ j00 * j10 + j01 * j11 = 0
  /\ j00 * j11 - j01 * j10 = 1 / f_range (3, 3)
  /\ 0 < j00 * j11 - j01 * j10.
Proof.
  apply (jacobian_of_h_invertible (3, 3)).
  intros Heq. injection Heq as Heq _. lra.
Defined.

(** ** The Jacobian as a derivative *)

Lemma derivable_pt_lim_eq (f k : R -> R) (x l l' : R) :
  (forall t, f t = k t) -> l = l' ->
  derivable_pt_lim f x l -> derivable_pt_lim k x l'.
Proof.
  intros Hfk <- Hf.
  apply (derivable_pt_lim_locally_ext f k x (x - 1) (x + 1)); auto; lra.
Qed.

Lemma derivable_pt_lim_scaled (c x : R) : derivable_pt_lim (fun t => t * c) x c.
Proof.
  apply (derivable_pt_lim_eq (id * fct_cte c)%F _ x (1 * c + x * 0));
    [ reflexivity | unfold fct_cte; ring | ].
  apply derivable_pt_lim_mult;
    [ apply derivable_pt_lim_id | apply derivable_pt_lim_const ].
Qed.

Lemma derivable_pt_lim_over (c x : R) :
  x <> 0 -> derivable_pt_lim (fun t => c / t) x (- c / (x * x)).
Proof.
  intros Hx.
  apply (derivable_pt_lim_eq (fct_cte c / id)%F _ x
           ((0 * id x - 1 * fct_cte c x) / (id x)²));
    [ reflexivity | unfold fct_cte, id, Rsqr; field; assumption | ].
  apply derivable_pt_lim_div;
    [ apply derivable_pt_lim_const | apply derivable_pt_lim_id | exact Hx ].
Qed.

Lemma derivable_pt_lim_sum_sq (c x : R) :
  derivable_pt_lim (fun t => t * t + c) x (2 * x).
Proof.
  apply (derivable_pt_lim_eq (id * id + fct_cte c)%F _ x
           (1 * id x + id x * 1 + 0));
    [ reflexivity | unfold id; ring | ].
  apply derivable_pt_lim_plus;
    [ apply derivable_pt_lim_mult; apply derivable_pt_lim_id
    | apply derivable_pt_lim_const ].
Qed.

Lemma derivable_pt_lim_atan_of (u : R -> R) (x l : R) :
  derivable_pt_lim u x l ->
  derivable_pt_lim (fun t => atan (u t)) x (/ (1 + u x ^ 2) * l).
Proof.
  intros Hu. apply (derivable_pt_lim_comp u atan); [ exact Hu | ].
  apply derivable_pt_lim_atan.
Qed.

Lemma derivable_pt_lim_norm2_left (a b : R) :
  0 < a * a + b * b ->
  derivable_pt_lim (fun t => norm2 t b) a (a / norm2 a b).
Proof.
  intros Hpos. unfold norm2.
  apply (derivable_pt_lim_eq (comp sqrt (fun t => t * t + b * b)) _ a
           (/ (2 * sqrt (a * a + b * b)) * (2 * a))).
  - reflexivity.
  - field. apply Rgt_not_eq. now apply sqrt_lt_R0.
  - apply derivable_pt_lim_comp; [ apply derivable_pt_lim_sum_sq | ].
    now apply derivable_pt_lim_sqrt.
Qed.

Lemma norm2_sym (a b : R) : norm2 a b = norm2 b a.
Proof. unfold norm2. f_equal. ring. Qed.

Lemma derivable_pt_lim_norm2_right (a b : R) :
  0 < a * a + b * b ->
  derivable_pt_lim (fun t => norm2 a t) b (b / norm2 a b).
Proof.
  intros Hpos.
  apply (derivable_pt_lim_eq (fun t => norm2 t a) _ b (b / norm2 b a)).
  - intros t. apply norm2_sym.
  - now rewrite norm2_sym.
  - apply derivable_pt_lim_norm2_left. lra.
Qed.

Lemma derivable_pt_lim_local (f k : R -> R) (x lo hi l l' : R) :
  lo < x < hi ->
  (forall t, lo < t < hi -> f t = k t) -> l = l' ->
  derivable_pt_lim f x l -> derivable_pt_lim k x l'.
Proof.
  intros Hx Hfk <- Hf.
  now apply (derivable_pt_lim_locally_ext f k x lo hi).
Qed.

Lemma derivable_pt_lim_shifted_atan (c : R) (u : R -> R) (x l : R) :
  derivable_pt_lim u x l ->
  derivable_pt_lim (fun t => c - atan (u t)) x (- (/ (1 + u x ^ 2) * l)).
Proof.
  intros Hu.
  apply (derivable_pt_lim_eq (fct_cte c - (fun t => atan (u t)))%F _ x
           (0 - / (1 + u x ^ 2) * l));
    [ reflexivity | ring | ].
  apply derivable_pt_lim_minus;
    [ apply derivable_pt_lim_const | now apply derivable_pt_lim_atan_of ].
Qed.

(** The bearing along the first coordinate. *)
Lemma derivable_pt_lim_bearing_left (a b : R) :
  0 < a \/ b <> 0 ->
  derivable_pt_lim (fun t => arctan2 b t) a (- b / (a ^ 2 + b ^ 2)).
Proof.
  intros Hoff.
  destruct (Rtotal_order b 0) as [Hneg | [Hzero | Hpos]].
  - apply (derivable_pt_lim_eq (fun t => - (PI / 2) - atan (t * / b)) _ a
             (- (/ (1 + (a * / b) ^ 2) * / b))).
    + intros t. symmetry. now apply arctan2_lower.
    + field; repeat split; first [ lra | simpl; nra ].
    + apply (derivable_pt_lim_shifted_atan _ (fun t => t * / b) a (/ b)).
      apply derivable_pt_lim_scaled.
  - subst b. destruct Hoff as [Ha | Hb]; [ | contradiction ].
    apply (derivable_pt_lim_local (fct_cte 0) _ a 0 (2 * a) 0).
    + lra.
    + intros t Ht. rewrite arctan2_right by lra.
      unfold Rdiv. now rewrite Rmult_0_l, atan_0.
    + field; repeat split; first [ lra | simpl; nra ].
    + apply derivable_pt_lim_const.
  - apply (derivable_pt_lim_eq (fun t => PI / 2 - atan (t * / b)) _ a
             (- (/ (1 + (a * / b) ^ 2) * / b))).
    + intros t. symmetry. now apply arctan2_upper.
    + field; repeat split; first [ lra | simpl; nra ].
    + apply (derivable_pt_lim_shifted_atan _ (fun t => t * / b) a (/ b)).
      apply derivable_pt_lim_scaled.
Qed.

(** The bearing along the second coordinate. *)
Lemma derivable_pt_lim_bearing_right (a b : R) :
  0 < a \/ b <> 0 ->
  derivable_pt_lim (fun t => arctan2 t a) b (a / (a ^ 2 + b ^ 2)).
Proof.
  intros Hoff.
  destruct (Rtotal_order b 0) as [Hneg | [Hzero | Hpos]].
  - apply (derivable_pt_lim_local (fun t => - (PI / 2) - atan (a / t)) _ b
             (b - 1) 0 (- (/ (1 + (a / b) ^ 2) * (- a / (b * b))))).
    + lra.
    + intros t Ht. symmetry. apply arctan2_lower. lra.
    + field; repeat split; first [ lra | simpl; nra ].
    + apply (derivable_pt_lim_shifted_atan _ (fun t => a / t) b
               (- a / (b * b))).
      apply derivable_pt_lim_over. lra.
  - subst b. destruct Hoff as [Ha | Hb]; [ | contradiction ].
    apply (derivable_pt_lim_eq (fun t => atan (t * / a)) _ 0
             (/ (1 + (0 * / a) ^ 2) * / a)).
    + intros t. symmetry. now apply arctan2_right.
    + field; repeat split; first [ lra | simpl; nra ].
    + apply (derivable_pt_lim_atan_of (fun t => t * / a) 0 (/ a)).
      apply derivable_pt_lim_scaled.
  - apply (derivable_pt_lim_local (fun t => PI / 2 - atan (a / t)) _ b
             0 (b + 1) (- (/ (1 + (a / b) ^ 2) * (- a / (b * b))))).
    + lra.
    + intros t Ht. symmetry. apply arctan2_upper. lra.
    + field; repeat split; first [ lra | simpl; nra ].
    + apply (derivable_pt_lim_shifted_atan _ (fun t => a / t) b
               (- a / (b * b))).
      apply derivable_pt_lim_over. lra.
Qed.

(** X16. Off the half line [x[1] = 0, x[0] <= 0], where the bearing jumps,
    the entries of [jacobian_of_h] are the partial derivatives of [h]: the
    first row those of the range, the second row those of the bearing,
    each along [x[0]] and along [x[1]]. *)
Theorem jacobian_of_h_is_derivative (a b : R) :
  0 < a \/ b <> 0 ->
  let '((j00, j01), (j10, j11)) := jacobian_of_h (a, b) in
  derivable_pt_lim (fun t => f_range (t, b)) a j00
  /\ derivable_pt_lim (fun t => f_range (a, t)) b j01
  /\ derivable_pt_lim (fun t => f_bearing (t, b)) a j10
  /\ derivable_pt_lim (fun t => f_bearing (a, t)) b j11.
Proof.
  intros Hoff. unfold jacobian_of_h, f_range, f_bearing. cbn [fst snd].
  assert (Hpos : 0 < a * a + b * b) by (destruct Hoff; nra).
  split; [ now apply derivable_pt_lim_norm2_left | ].
  split; [ now apply derivable_pt_lim_norm2_right | ].
  split; [ now apply derivable_pt_lim_bearing_left
         | now apply derivable_pt_lim_bearing_right ].
Qed.

Lemma jacobian_of_h_is_derivative_witness :
  let '((j00, j01), (j10, j11)) := jacobian_of_h (3, 3) in
  derivable_pt_lim (fun t => f_range (t, 3)) 3 j00
  /\ derivable_pt_lim (fun t => f_range (3, t)) 3 j01
  /\ derivable_pt_lim (fun t => f_bearing (t, 3)) 3 j10
  /\ derivable_pt_lim (fun t => f_bearing (3, t)) 3 j11.
Proof.
  apply (jacobian_of_h_is_derivative 3 3). left. lra.
Defined.

(** * Rotation matrices *)

Import Rotation.

(** X17. Rotations compose by adding their angles: the product of the
    matrices of [a] and of [b] is the matrix of [a + b], in either
    order. *)
Theorem rotation_matrix_compose (a b : R) :
  matmul (rotation_matrix a) (rotation_matrix b) = rotation_matrix (a + b)
  /\ matmul (rotation_matrix a) (rotation_matrix b)
     = matmul (rotation_matrix b) (rotation_matrix a).
Proof.
  unfold rotation_matrix, matmul. split.
  - rewrite cos_plus, sin_plus. f_equal; f_equal; ring.
  - f_equal; f_equal; ring.
Qed.

(** X18. The matrix of [- angle] is the transpose of the matrix of
    [angle] and its inverse on both sides; a rotation matrix has
    determinant 1 and keeps the Euclidean norm of a vector. *)
Theorem rotation_matrix_inverse (angle : R) (v : R * R) :
  rotation_matrix (- angle) = transpose (rotation_matrix angle)
  /\ matmul (rotation_matrix (- angle)) (rotation_matrix angle) = eye2
  /\ matmul (rotation_matrix angle) (rotation_matrix (- angle)) = eye2
  /\ det (rotation_matrix angle) = 1
  /\ norm2 (fst (matvec (rotation_matrix angle) v))
           (snd (matvec (rotation_matrix angle) v))
     = norm2 (fst v) (snd v).
Proof.
  assert (Hone := sin2_cos2 angle). unfold Rsqr in Hone.
  unfold rotation_matrix, matmul, transpose, eye2, det, matvec.
  rewrite cos_neg, sin_neg.
  split; [ now rewrite Ropp_involutive | ].
  split; [ f_equal; f_equal; nra | ].
  split; [ f_equal; f_equal; nra | ].
  split; [ nra | ].
  destruct v as [v0 v1]. cbn [fst snd]. unfold norm2. f_equal. nra.
Qed.

(** * The matrix of powers of the least squares notebook *)

Import LeastSquares.

Lemma update_map_seq {A} (f : nat -> A) (n s j : nat) (a : A) :
  update (map f (seq s n)) j a
  = map (fun c => if (c =? s + j)%nat then a else f c) (seq s n).
Proof.
  revert s j. induction n as [ | n IH]; intros s j; [ reflexivity | ].
  destruct j as [ | j]; simpl.
  - rewrite Nat.add_0_r, Nat.eqb_refl. f_equal.
    apply map_ext_in. intros c Hc. apply in_seq in Hc.
    destruct (Nat.eqb_spec c s); [ lia | reflexivity ].
  - destruct (Nat.eqb_spec s (s + Datatypes.S j)); [ lia | ]. f_equal.
    rewrite IH. apply map_ext. intros c.
    now replace (Datatypes.S s + j)%nat with (s + Datatypes.S j)%nat by lia.
Qed.

Lemma combine_map_same {A B C} (f : A -> B) (k : A -> C) (l : list A) :
  combine (map f l) (map k l) = map (fun a => (f a, k a)) l.
Proof. induction l as [ | a l IH]; simpl; [ reflexivity | now rewrite IH ]. Qed.

Lemma rev_seq (n : nat) :
  rev (seq 0 n) = map (fun j => (n - 1 - j)%nat) (seq 0 n).
Proof.
  induction n as [ | n IH]; [ reflexivity | ].
  replace (rev (seq 0 (Datatypes.S n))) with (n :: rev (seq 0 n))
    by (rewrite seq_S, rev_app_distr; reflexivity).
  rewrite IH. change (seq 0 (Datatypes.S n)) with (0%nat :: seq 1 n).
  rewrite <- seq_shift, map_cons, map_map.
  replace (Datatypes.S n - 1 - 0)%nat with n by lia. f_equal.
  apply map_ext. intros j. lia.
Qed.

Section Powers.

Variables (degree : nat) (t : list R).

(** The rows after the first [j] columns are filled. *)
Let partial_row (j : nat) (tr : R) : list R :=
  map (fun c => if (c <? j)%nat then tr ^ (degree - 1 - c) else 0)
      (seq 0 degree).

Lemma set_column_step (j : nat) :
  (j < degree)%nat ->
  set_column degree (map (partial_row j) t)
    (- Z.of_nat (degree - 1 - j) - 1)
    (map (fun v => v ^ (degree - 1 - j)) t)
  = Ok (map (partial_row (Datatypes.S j)) t).
Proof.
  intros Hj. unfold set_column.
  replace (- Z.of_nat (degree - 1 - j) - 1)%Z
    with (Z.of_nat j - Z.of_nat degree)%Z by lia.
  unfold axis_index.
  destruct (Z.leb_spec 0 (Z.of_nat j - Z.of_nat degree)); [ lia | ].
  simpl andb.
  replace ((- Z.of_nat degree <=? Z.of_nat j - Z.of_nat degree)
           && (Z.of_nat j - Z.of_nat degree <? 0))%Z with true
    by (symmetry; apply andb_true_iff; split;
        [ apply Z.leb_le | apply Z.ltb_lt ]; lia).
  simpl bind. unfold broadcast_to. rewrite !length_map, Nat.eqb_refl.
  simpl bind. f_equal. rewrite combine_map_same, map_map.
  apply map_ext. intros tr. cbn [fst snd].
  replace (Z.to_nat (Z.of_nat j - Z.of_nat degree + Z.of_nat degree)) with j
    by lia.
  unfold partial_row. rewrite update_map_seq. apply map_ext_in.
  intros c Hc. simpl.
  destruct (Nat.eqb_spec c j) as [-> | Hne].
  - replace (j <? Datatypes.S j)%nat with true
      by (symmetry; apply Nat.ltb_lt; lia).
    reflexivity.
  - destruct (Nat.ltb_spec c j), (Nat.ltb_spec c (Datatypes.S j));
      (reflexivity || lia).
Qed.

Lemma make_H_loop_fills (n j : nat) :
  (j + n = degree)%nat ->
  make_H_loop degree t (map (fun c => (degree - 1 - c)%nat) (seq j n))
    (map (partial_row j) t)
  = Ok (map (partial_row degree) t).
Proof.
  revert j. induction n as [ | n IH]; intros j Hj.
  - simpl. now replace j with degree by lia.
  - simpl. rewrite set_column_step by lia. simpl bind. apply IH. lia.
Qed.

Lemma make_H_powers_aux :
  make_H (length t) degree t
  = Ok (map (fun tr => map (fun c => tr ^ (degree - 1 - c)) (seq 0 degree)) t).
Proof.
  unfold make_H, zeros. rewrite rev_seq.
  replace (repeat (repeat 0 degree) (length t)) with (map (partial_row 0) t).
  - rewrite (make_H_loop_fills degree 0) by lia. f_equal.
    apply map_ext. intros tr. unfold partial_row. apply map_ext_in.
    intros c Hc. apply in_seq in Hc.
    destruct (Nat.ltb_spec c degree); [ reflexivity | lia ].
  - rewrite <- (map_const_repeat (repeat 0 degree) t).
    apply map_ext. intros tr. unfold partial_row.
    rewrite (map_ext _ (fun _ => 0)) by reflexivity.
    now rewrite map_const_repeat, length_seq.
Qed.

End Powers.

(** X19. For an array [t] of [m] values, [make_H(m, degree, t)] returns
    [m] rows of [degree] entries, the row of [t_r] being
    [t_r ^ (degree - 1), ..., t_r, 1]: the highest power is [degree - 1]. *)
Theorem make_H_powers (m degree : nat) (t : list R) :
  length t = m ->
  exists H,
    make_H m degree t = Ok H
    /\ H = map (fun tr => map (fun c => tr ^ (degree - 1 - c)) (seq 0 degree)) t
    /\ length H = m
    /\ Forall (fun row => length row = degree) H
    /\ forall r c,
         (r < m)%nat -> (c < degree)%nat ->
         nth c (nth r H []) 0 = nth r t 0 ^ (degree - 1 - c).
Proof.
  intros <-. eexists. split; [ apply make_H_powers_aux | ].
  split; [ reflexivity | ]. split; [ now rewrite length_map | ].
  split.
  - apply Forall_map, Forall_forall. intros tr _.
    now rewrite length_map, length_seq.
  - intros r c Hr Hc.
    rewrite (nth_indep _ []
               (map (fun c0 => 0 ^ (degree - 1 - c0)) (seq 0 degree)))
      by now rewrite length_map.
    rewrite (map_nth (fun tr => map (fun c0 => tr ^ (degree - 1 - c0))
                                  (seq 0 degree))).
    rewrite (nth_indep _ 0 (nth r t 0 ^ (degree - 1 - 0)))
      by now rewrite length_map, length_seq.
    rewrite (map_nth (fun c0 => nth r t 0 ^ (degree - 1 - c0))).
    now rewrite seq_nth.
Qed.

Lemma make_H_powers_witness :
  exists H,
    make_H 2 3 [2; 5] = Ok H
    /\ H = map (fun tr => map (fun c => tr ^ (3 - 1 - c)) (seq 0 3)) [2; 5]
    /\ length H = 2%nat
    /\ Forall (fun row => length row = 3%nat) H
    /\ forall r c,
         (r < 2)%nat -> (c < 3)%nat ->
         nth c (nth r H []) 0 = nth r [2; 5] 0 ^ (3 - 1 - c).
Proof. apply (make_H_powers 2 3 [2; 5]). reflexivity. Defined.

Lemma axis_index_negative (n i : Z) :
  (- n <= i < 0)%Z -> axis_index n i = Ok (i + n)%Z.
Proof.
  intros Hi. unfold axis_index.
  destruct (Z.leb_spec 0 i); [ lia | ]. cbn [andb].
  destruct (Z.leb_spec (- n) i); [ | lia ].
  destruct (Z.ltb_spec i 0); [ reflexivity | lia ].
Qed.

Lemma rev_seq_S (n : nat) : rev (seq 0 (Datatypes.S n)) = n :: rev (seq 0 n).
Proof. rewrite seq_S, rev_app_distr. reflexivity. Qed.

(** X20. With [degree = 0] [make_H] returns [m] empty rows, whatever [t]
    is; with [degree >= 1] an array [t] whose length is neither [m] nor 1
    makes the first column assignment raise ValueError. *)
Theorem make_H_shapes (m degree : nat) (t : list R) :
  (degree = 0%nat -> make_H m degree t = Ok (repeat [] m))
  /\ ((1 <= degree)%nat -> length t <> m -> length t <> 1%nat ->
      make_H m degree t = Raise ValueError).
Proof.
  split.
  - intros ->. reflexivity.
  - intros Hd Hm H1. destruct degree as [ | d]; [ lia | ].
    unfold make_H. rewrite rev_seq_S. cbn [make_H_loop]. unfold set_column.
    rewrite axis_index_negative by lia.
    simpl bind. unfold broadcast_to, zeros.
    rewrite repeat_length, length_map.
    destruct (Nat.eqb_spec (length t) m); [ contradiction | ].
    destruct t as [ | a [ | b t']]; simpl in *;
      solve [ reflexivity | exfalso; lia | congruence ].
Qed.

Lemma make_H_shapes_witness :
  make_H 3 0 [2; 5] = Ok (repeat [] 3)
  /\ make_H 3 2 [2; 5] = Raise ValueError.
Proof.
  split.
  - apply (make_H_shapes 3 0 [2; 5]). reflexivity.
  - apply (make_H_shapes 3 2 [2; 5]); simpl; lia.
Defined.

Lemma horner_from (coeffs : list R) (t acc : R) :
  fold_left (fun a c => a * t + c) coeffs acc
  = acc * t ^ length coeffs
    + dot (map (fun c => t ^ (length coeffs - 1 - c)) (seq 0 (length coeffs)))
          coeffs.
Proof.
  revert acc. induction coeffs as [ | c coeffs IH]; intros acc.
  - unfold dot. simpl. lra.
  - cbn [fold_left]. rewrite IH. cbn [length].
    change (seq 0 (Datatypes.S (length coeffs)))
      with (0%nat :: seq 1 (length coeffs)).
    rewrite <- seq_shift, map_cons, map_map. unfold dot. cbn [combine map fold_right fst snd].
    replace (Datatypes.S (length coeffs) - 1 - 0)%nat with (length coeffs) by lia.
    rewrite (map_ext (fun c0 => t ^ (Datatypes.S (length coeffs) - 1 - Datatypes.S c0))
               (fun c0 => t ^ (length coeffs - 1 - c0)))
      by (intros c0; f_equal; lia).
    simpl pow. ring.
Qed.

(** X21. For an array [t] of [m] values and [degree] coefficients [x],
    [make_H(m, degree, t) @ x] holds, for each [t_r], the value at [t_r]
    of the polynomial whose coefficients are [x], the highest power
    first. *)
Theorem make_H_evaluates_polynomial (m degree : nat) (t x : list R) :
  length t = m ->
  length x = degree ->
  exists H, make_H m degree t = Ok H
            /\ matvec H x = map (horner x) t.
Proof.
  intros <- <-. eexists. split; [ apply make_H_powers_aux | ].
  unfold matvec. rewrite map_map. apply map_ext. intros tr.
  unfold horner. rewrite horner_from. lra.
Qed.

Lemma make_H_evaluates_polynomial_witness :
  exists H, make_H 2 3 [2; 5] = Ok H
            /\ matvec H [1; 0; 7] = map (horner [1; 0; 7]) [2; 5].
Proof.
  apply (make_H_evaluates_polynomial 2 3 [2; 5] [1; 0; 7]); reflexivity.
Defined.
